(** * parasol: Solr schema reconciliation, update handler and bulk indexing

    A shallow embedding of [parasol/schema.py], [parasol/solr/update.py],
    the settings-driven client of [parasolr/django.py] and the indexing
    entry points exercised by [parasol/tests/test_indexing.py], followed by
    the properties proved about them. *)

From stdpp Require Import gmap strings list fin_maps pretty.
From Equations Require Import Equations.

Local Open Scope Z_scope.

(** ** Python values *)

(** The values that travel through the schema and update code: [None],
    booleans, integers, strings, lists and string-keyed dictionaries. *)
#[warnings="-register-all"]
Inductive pyval :=
  | PNone
  | PBool (b : bool)
  | PInt (z : Z)
  | PStr (s : string)
  | PList (l : list pyval)
  | PDict (d : gmap string pyval).

(** Python truth value testing, as used by [if commit:] and
    [if commit_within:]. *)
Definition truthy (v : pyval) : bool :=
  match v with
  | PNone => false
  | PBool b => b
  | PInt z => negb (z =? 0)
  | PStr s => negb (String.eqb s "")
  | PList l => negb (Nat.eqb (length l) 0)
  | PDict d => negb (Nat.eqb (size d) 0)
  end.

(** ** Exceptions and effects *)

Inductive exn :=
  | Exception (msg : string)
  | AttributeError
  | KeyError (key : string)
  | TypeError
  | ValueError.

Inductive result (A : Type) :=
  | Ok (a : A)
  | Raise (e : exn).
Arguments Ok {A} a.
Arguments Raise {A} e.

(** A computation over a mutable world [S] that either returns or raises;
    the world reached so far survives a raise, as it does in Python. *)
Definition Eff (S A : Type) : Type := S → result A * S.

Global Instance Eff_ret {S} : MRet (Eff S) := λ A a s, (Ok a, s).

Global Instance Eff_bind {S} : MBind (Eff S) := λ A B f m s,
  match m s with
  | (Ok a, s') => f a s'
  | (Raise e, s') => (Raise e, s')
  end.

Global Instance Eff_throw {S} : MThrow exn (Eff S) := λ A e s, (Raise e, s).

(** Read from, and write to, the world. *)
Definition gets {S A} (f : S → A) : Eff S A := λ s, (Ok (f s), s).

Definition modify {S} (f : S → S) : Eff S unit := λ s, (Ok (), f s).

(** The outcome of a call that does not touch the world. *)
Definition lift {S A} (r : result A) : Eff S A := λ s, (r, s).

(** [for x in l: acc = body(acc, x)] *)
Fixpoint for_each {S X A} (l : list X) (acc : A) (body : A → X → Eff S A)
  : Eff S A :=
  match l with
  | [] => mret acc
  | x :: l' => acc' ← body acc x; for_each l' acc' body
  end.

(** [d[key] = val] on a value that has to be a dictionary. *)
Definition setitem {S} (v : pyval) (key : string) (val : pyval) : Eff S pyval :=
  match v with
  | PDict d => mret (PDict (<[key := val]> d))
  | _ => mthrow TypeError
  end.

(** [del d[key]] *)
Definition delitem {S} (d : gmap string pyval) (key : string)
  : Eff S (gmap string pyval) :=
  match d !! key with
  | Some _ => mret (delete key d)
  | None => mthrow (KeyError key)
  end.

(** Keyword unpacking next to an explicit [name] keyword: [v] has to be a
    mapping and must not bind [name] a second time. *)
Definition kwargs_with_name {S} (v : pyval) : Eff S (gmap string pyval) :=
  match v with
  | PDict d => if d !! "name" is Some _ then mthrow TypeError else mret d
  | _ => mthrow TypeError
  end.

(** Keyword unpacking of [v] alone: [v] has to be a mapping. *)
Definition kwargs {S} (v : pyval) : Eff S (gmap string pyval) :=
  match v with
  | PDict d => mret d
  | _ => mthrow TypeError
  end.

(** [AttrDefault(int, {})]: a counter bag whose missing keys read as [0]. *)
Definition stats_get (stats : gmap string Z) (key : string) : Z :=
  default 0 (stats !! key).

(** [stats.key += 1] *)
Definition incr (key : string) (stats : gmap string Z) : gmap string Z :=
  <[key := stats_get stats key + 1]> stats.

(** ** schema.py: descriptors *)

Module SolrField.

Record t := mk { type : pyval; required : pyval; multivalued : pyval }.

(** [SolrField(fieldtype, required=False, multivalued=False)] *)
Definition __init__ (fieldtype : pyval) (required multivalued : option pyval) : t :=
  {| type := fieldtype;
     required := default (PBool false) required;
     multivalued := default (PBool false) multivalued |}.

Definition __get__ (self : t) : pyval :=
  PDict {[ "type" := type self;
           "required" := required self;
           "multiValued" := multivalued self ]}.

(** [__set__(self, obj, val)]: the descriptor is the mutable world. *)
Definition __set__ (obj val : pyval) : Eff t unit :=
  mthrow AttributeError.


End SolrField.

Module SolrTypedField.

(** The base initialiser called with [self.field_type] first. *)
Definition __init__ (field_type : pyval) (required multivalued : option pyval)
  : SolrField.t :=
  SolrField.__init__ field_type required multivalued.

End SolrTypedField.

Module SolrStringField.

Definition field_type : pyval := PStr "string".

Definition __init__ (required multivalued : option pyval) : SolrField.t :=
  SolrTypedField.__init__ field_type required multivalued.

End SolrStringField.

Module SolrAnalyzer.

Record t := mk { tokenizer : pyval; filters : pyval }.

Definition as_solr_config (cls : t) : pyval :=
  PDict {[ "tokenizer" := PDict {[ "class" := tokenizer cls ]};
           "filters" := filters cls ]}.

End SolrAnalyzer.

Module SolrFieldType.

Record t := mk { field_class : pyval; analyzer : SolrAnalyzer.t }.

Definition __init__ (field_class : pyval) (analyzer : SolrAnalyzer.t) : t :=
  {| field_class := field_class; analyzer := analyzer |}.

Definition __get__ (self : t) : pyval :=
  PDict {[ "class" := field_class self;
           "analyzer" := SolrAnalyzer.as_solr_config (analyzer self) ]}.

Definition __set__ (obj val : pyval) : Eff t unit :=
  mthrow AttributeError.

End SolrFieldType.

(** ** The remote schema API *)

Module Solr.

(** The calls the reconciler makes on [solr.schema], as the remote sees
    them. *)
Inductive call :=
  | ListFields
  | AddField (name : string) (opts : gmap string pyval)
  | ReplaceField (name : string) (opts : gmap string pyval)
  | DeleteField (name : string)
  | ListFieldTypes
  | AddFieldType (kw : gmap string pyval)
  | ReplaceFieldType (kw : gmap string pyval).

(** Modelled from the spec: the transport wrapper behind [solr.schema]
    (parasol/solr/schema.py) is not part of the sources.  The remote holds
    named field definitions and named field-type definitions, in listing
    order, and the record keeps the log of every call received. *)
Record t := mk {
  fields : list (string * gmap string pyval);
  field_types : list (string * gmap string pyval);
  calls : list call
}.

Definition log (c : call) (s : t) : t :=
  {| fields := fields s; field_types := field_types s;
     calls := calls s ++ [c] |}.

Definition set_fields (fs : list (string * gmap string pyval)) (s : t) : t :=
  {| fields := fs; field_types := field_types s; calls := calls s |}.

Definition set_field_types (fts : list (string * gmap string pyval)) (s : t) : t :=
  {| fields := fields s; field_types := fts; calls := calls s |}.

(** Overwrite the definition stored under [name], wherever it is listed. *)
Definition overwrite (name : string) (d : gmap string pyval)
    (l : list (string * gmap string pyval)) : list (string * gmap string pyval) :=
  (λ e, if decide (e.1 = name) then (name, d) else e) <$> l.

(** Drop what is stored under [name]. *)
Definition remove (name : string) (l : list (string * gmap string pyval))
  : list (string * gmap string pyval) :=
  List.filter (λ e, negb (bool_decide (e.1 = name))) l.

(** Modelled from the spec: a listed field type as the object the client
    hands out, its definition together with its [name] key. *)
Definition as_dict (ft : string * gmap string pyval) : gmap string pyval :=
  <["name" := PStr ft.1]> ft.2.

(** Modelled from the spec: what a call does to the remote field
    definitions.  [addField] appends a definition, [replaceField] fully
    overwrites it, [deleteField] drops it. *)
Definition field_effect (c : call) (fs : list (string * gmap string pyval))
  : list (string * gmap string pyval) :=
  match c with
  | AddField name kw => fs ++ [(name, kw)]
  | ReplaceField name kw => overwrite name kw fs
  | DeleteField name => remove name fs
  | _ => fs
  end.

(** Modelled from the spec: what a call does to the remote field-type
    definitions; a definition names the type it adds or replaces. *)
Definition type_effect (c : call) (fts : list (string * gmap string pyval))
  : list (string * gmap string pyval) :=
  match c with
  | AddFieldType kw =>
      match kw !! "name" with
      | Some (PStr n) => fts ++ [(n, delete "name" kw)]
      | _ => fts
      end
  | ReplaceFieldType kw =>
      match kw !! "name" with
      | Some (PStr n) => overwrite n (delete "name" kw) fts
      | _ => fts
      end
  | _ => fts
  end.

Definition effect (c : call) (s : t) : t :=
  set_field_types (type_effect c (field_types s))
    (set_fields (field_effect c (fields s)) s).

(** The remote serves a call and keeps it in its log. *)
Definition serve (c : call) (s : t) : t := log c (effect c s).

Definition receive (c : call) : Eff t unit := modify (serve c).

(** Modelled from the spec: [solr.schema.list_fields()] is [listFields()],
    the ordered sequence of [{name, ...attributes}]. *)
Definition list_fields : Eff t (list (string * gmap string pyval)) :=
  receive ListFields;; gets fields.

(** Modelled from the spec: [solr.schema.add_field], called with [name] and
    with [field_opts] unpacked as keywords, is [addField(name, attributes)]. *)
Definition add_field (name : string) (field_opts : pyval) : Eff t unit :=
  kw ← kwargs_with_name field_opts;
  receive (AddField name kw).

(** Modelled from the spec: [solr.schema.replace_field], called with [name]
    and with [field_opts] unpacked as keywords, is
    [replaceField(name, attributes)]. *)
Definition replace_field (name : string) (field_opts : pyval) : Eff t unit :=
  kw ← kwargs_with_name field_opts;
  receive (ReplaceField name kw).

(** Modelled from the spec: [solr.schema.delete_field(name)] is
    [deleteField(name)]. *)
Definition delete_field (name : string) : Eff t unit :=
  receive (DeleteField name).

(** Modelled from the spec: [solr.schema.list_field_types()] is
    [listFieldTypes()], the ordered sequence of [{name, class, analyzer}]. *)
Definition list_field_types : Eff t (list (string * gmap string pyval)) :=
  receive ListFieldTypes;; gets field_types.

(** Modelled from the spec: a field-type definition reaches the remote only
    when it binds [name] to a string; the wrapper's own signature is not
    part of the sources. *)
Definition named (kw : gmap string pyval) : Eff t unit :=
  match kw !! "name" with
  | Some (PStr _) => mret ()
  | _ => mthrow TypeError
  end.

(** Modelled from the spec: [solr.schema.add_field_type], called with
    [field_type_opts] unpacked as keywords, is [addFieldType(definition)]. *)
Definition add_field_type (field_type_opts : pyval) : Eff t unit :=
  kw ← kwargs field_type_opts;
  named kw;;
  receive (AddFieldType kw).

(** Modelled from the spec: [solr.schema.replace_field_type], called with
    [field_type_opts] unpacked as keywords, is
    [replaceFieldType(definition)]. *)
Definition replace_field_type (field_type_opts : pyval) : Eff t unit :=
  kw ← kwargs field_type_opts;
  named kw;;
  receive (ReplaceFieldType kw).

End Solr.

(** ** schema.py: SolrSchema *)

Module SolrSchema.

(** What a class attribute of a schema configuration can be. *)
Inductive attr :=
  | AField (f : SolrField.t)
  | AFieldType (ft : SolrFieldType.t)
  | AOther (v : pyval).

(** A schema configuration class: the items of [cls.__dict__], in
    definition order. *)
Definition t : Type := list (string * attr).

Definition isinstance_SolrField (a : attr) : bool :=
  match a with AField _ => true | _ => false end.

Definition isinstance_SolrFieldType (a : attr) : bool :=
  match a with AFieldType _ => true | _ => false end.

(** [subclasses] is [cls.__subclasses__()]. *)
Definition get_configuration (subclasses : list t) : result t :=
  match subclasses with
  | [] => Raise (Exception "No Solr schema configuration found")
  | first :: _ =>
      if decide (1 < length subclasses)%nat then
        Raise (Exception
          ("Currently only one Solr schema configuration is supported (found "
             +:+ pretty (length subclasses) +:+ ")"))
      else Ok first
  end.

Definition get_field_names (cls : t) : list string :=
  (List.filter (λ item, isinstance_SolrField item.2) cls).*1.

Definition get_field_types (cls : t) : list string :=
  (List.filter (λ item, isinstance_SolrFieldType item.2) cls).*1.

Fixpoint class_lookup (name : string) (cls : t) : option attr :=
  match cls with
  | [] => None
  | (k, a) :: cls' => if decide (k = name) then Some a else class_lookup name cls'
  end.

(** Reading a class attribute: descriptors answer through [__get__]. *)
Definition attr_get (a : attr) : pyval :=
  match a with
  | AField f => SolrField.__get__ f
  | AFieldType ft => SolrFieldType.__get__ ft
  | AOther v => v
  end.

(** [getattr(cls, name)] *)
Definition getattr {S} (cls : t) (name : string) : Eff S pyval :=
  match class_lookup name cls with
  | Some a => mret (attr_get a)
  | None => mthrow AttributeError
  end.

Definition configure_solr_fields (cls : t) : Eff Solr.t (gmap string Z) :=
  listing ← Solr.list_fields;
  let current_fields := listing.*1 in
  let configured_field_names := get_field_names cls in
  let stats : gmap string Z := ∅ in
  stats ← for_each configured_field_names stats (λ stats field_name,
    field_opts ← getattr cls field_name;
    if bool_decide (field_name ∉ current_fields) then
      Solr.add_field field_name field_opts;;
      mret (incr "added" stats)
    else
      Solr.replace_field field_name field_opts;;
      mret (incr "replaced" stats));
  stats ← for_each current_fields stats (λ stats field_name,
    if bool_decide (field_name = "id") || String.prefix "_" field_name then
      mret stats
    else if bool_decide (field_name ∉ configured_field_names) then
      let stats := incr "deleted" stats in
      Solr.delete_field field_name;;
      mret stats
    else mret stats);
  mret stats.

(** [{ftype['name']: ftype for ftype in listing}] *)
Definition by_name (listing : list (string * gmap string pyval))
  : gmap string (gmap string pyval) :=
  foldl (λ m ftype, <[ftype.1 := Solr.as_dict ftype]> m) ∅ listing.

Definition configure_solr_fieldtypes (cls : t) : Eff Solr.t (gmap string Z) :=
  let configured_field_types := get_field_types cls in
  let stats : gmap string Z := ∅ in
  if bool_decide (configured_field_types = []) then mret stats
  else
    listing ← Solr.list_field_types;
    let current_field_types := by_name listing in
    '(stats, _) ← for_each configured_field_types (stats, current_field_types)
      (λ '(stats, current_field_types) field_type,
        field_type_opts ← getattr cls field_type;
        field_type_opts ← setitem field_type_opts "name" (PStr field_type);
        match current_field_types !! field_type with
        | Some current_field_type_opts =>
            current_field_type_opts ← delitem current_field_type_opts "name";
            let current_field_types :=
              <[field_type := current_field_type_opts]> current_field_types in
            let stats := incr "updated" stats in
            Solr.replace_field_type field_type_opts;;
            mret (stats, current_field_types)
        | None =>
            let stats := incr "added" stats in
            Solr.add_field_type field_type_opts;;
            mret (stats, current_field_types)
        end);
    mret stats.

End SolrSchema.

(** ** Assigning to a declared name *)

Module Attribute.





End Attribute.

(** ** solr/update.py: the update handler *)

Module Update.

(** Dictionaries are mutable objects: names hold references into a store. *)
Definition loc : Type := positive.

(** A request as the client's [make_request] receives it; [params] and
    [headers] are read through the references passed in. *)
Record request := mkRequest {
  req_method : string;
  req_url : string;
  req_data : pyval;
  req_params : gmap string pyval;
  req_headers : gmap string pyval
}.

Record world := mkWorld {
  heap : gmap loc (gmap string pyval);
  requests : list request
}.

Definition set_heap (h : gmap loc (gmap string pyval)) (w : world) : world :=
  {| heap := h; requests := requests w |}.

(** A new dictionary object. *)
Definition alloc (d : gmap string pyval) : Eff world loc :=
  l ← gets (λ w, fresh (dom (heap w)));
  modify (λ w, set_heap (<[l := d]> (heap w)) w);;
  mret l.

(** Reading through a reference; every reference the code holds points at
    an allocated dictionary. *)
Definition load (l : loc) : Eff world (gmap string pyval) :=
  gets (λ w, heap w !!! l).

(** [d.copy()] *)
Definition dict_copy (l : loc) : Eff world loc :=
  d ← load l; alloc d.

(** [d[key] = val] *)
Definition dict_setitem (l : loc) (key : string) (val : pyval) : Eff world unit :=
  d ← load l;
  modify (λ w, set_heap (<[l := <[key := val]> d]> (heap w)) w).

(** [del d[key]] *)
Definition dict_delitem (l : loc) (key : string) : Eff world unit :=
  d ← load l;
  d ← delitem d key;
  modify (λ w, set_heap (<[l := d]> (heap w)) w).

(** Modelled from the spec: the client (parasol/solr/client.py) is not part
    of the sources; the handler reads [update_handler] and calls
    [build_url]. *)
Record SolrClient := mkClient {
  update_handler : string;
  build_url : string → string
}.

(** What the handler calls outside the sources.  [urljoin] is
    [urllib.parse.urljoin], which resolves the relative path against the
    base and raises [ValueError] on a base it cannot parse.  [transport] is
    what lies behind [client.make_request]: its answer to a request, given
    the requests handed over before, is to return or to raise.  Neither is
    fixed: a property holds whatever they answer, unless it says what it
    needs of them. *)
Class Externals := {
  urljoin : string → string → result string;
  transport : list request → request → result unit
}.

(** Modelled from the spec: [client.make_request] belongs to the transport
    wrapper, an external collaborator whose failures reach the caller; the
    request is recorded as handed over, with [params] and [headers] read
    through the references passed in, and the call returns or raises as the
    transport does. *)
Definition make_request {E : Externals} (client : SolrClient) (method url : string)
    (data : pyval) (params headers : loc) : Eff world unit :=
  p ← load params;
  h ← load headers;
  earlier ← gets requests;
  let req := mkRequest method url data p h in
  modify (λ w, {| heap := heap w; requests := requests w ++ [req] |});;
  lift (transport earlier req).

Record t := mk {
  client : SolrClient;
  url : string;
  headers : loc;
  params : loc
}.

Definition __init__ (client : SolrClient) (commit_within : pyval) : Eff world t :=
  let url := build_url client (update_handler client) in
  headers ← alloc {[ "Content-Type" := PStr "application/json" ]};
  params ← alloc {[ "commitWithin" := commit_within ]};
  mret {| client := client; url := url; headers := headers; params := params |}.

(** [index(self, docs, commit=False, commit_within=None)]; the request is
    made with [params=self.params], as the source has it. *)
Definition index {E : Externals} (self : t) (docs commit commit_within : pyval)
  : Eff world unit :=
  params ← dict_copy (Update.params self);
  (if truthy commit_within
   then dict_setitem params "commitWithin" commit_within
   else mret ());;
  (if truthy commit
   then dict_delitem params "commitWithin";;
        dict_setitem params "commit" (PBool true)
   else mret ());;
  url ← lift (urljoin (Update.url self +:+ "/") "json/docs");
  make_request (client self) "post" url docs (Update.params self) (headers self).

Definition _delete {E : Externals} (self : t) (del_obj : pyval) : Eff world unit :=
  let data := PDict {[ "delete" := del_obj ]} in
  make_request (client self) "post" (url self) data (params self) (headers self).

Definition delete_by_id {E : Externals} (self : t) (id_list : pyval) : Eff world unit :=
  _delete self id_list.

Definition delete_by_query {E : Externals} (self : t) (query : pyval) : Eff world unit :=
  _delete self (PDict {[ "query" := query ]}).

End Update.

(** ** indexing: the bulk indexer *)

Module Indexable.

(** Modelled from the spec: parasol/indexing.py is not part of the sources.
    An indexable record produces its item type and its own identifier. *)
Class Record_ (A : Type) := {
  index_item_type : A → string;
  natural_id : A → string
}.

(** Modelled from the spec: [index_id] is the item type and the record's
    identifier joined by a period. *)
Definition index_id `{Record_ A} (r : A) : string :=
  index_item_type r +:+ "." +:+ natural_id r.

(** Modelled from the spec: [index_data] holds the [id] and [item_type]
    keys. *)
Definition index_data `{Record_ A} (r : A) : pyval :=
  PDict {[ "id" := PStr (index_id r); "item_type" := PStr (index_item_type r) ]}.

(** What the collaborators of the indexer receive. *)
Inductive event :=
  | IndexDocs (docs : list pyval)
  | DeleteByIds (ids : list string)
  | ProgressUpdate.

Definition emit (e : event) : Eff (list event) unit := modify (λ w, w ++ [e]).

(** Modelled from the spec: the stream is cut into contiguous chunks of at
    most [chunk_size] records; a chunk size of zero yields no chunk. *)
Equations? chunked {A} (chunk_size : nat) (items : list A) : list (list A)
  by wf (length items) lt :=
  chunked _ [] := [];
  chunked 0 (_ :: _) := [];
  chunked (S c) (x :: rest) := (x :: take c rest) :: chunked (S c) (drop c rest).
Proof. rewrite length_drop. simpl. lia. Qed.

(** Modelled from the spec: [indexItems(items, chunkSize, progress?)]: each
    chunk is mapped through [index_data] and submitted as one bulk-index
    call, a supplied progress sink gets one update per chunk, and the total
    count of records is returned. *)
Definition index_items `{Record_ A} (items : list A) (chunk_size : nat)
    (progbar : bool) : Eff (list event) Z :=
  for_each (chunked chunk_size items) 0 (λ count chunk,
    emit (IndexDocs (index_data <$> chunk));;
    (if progbar then emit ProgressUpdate else mret ());;
    mret (count + Z.of_nat (length chunk))).

(** Modelled from the spec: [indexItem(record)] submits a one-element
    batch. *)
Definition index `{Record_ A} (r : A) : Eff (list event) unit :=
  emit (IndexDocs [index_data r]).

(** Modelled from the spec: [removeFromIndex(record)] deletes by id. *)
Definition remove_from_index `{Record_ A} (r : A) : Eff (list event) unit :=
  emit (DeleteByIds [index_id r]).

(** The batches submitted, in order, among the events [evs]. *)
Definition submissions (evs : list event) : list (list pyval) :=
  omap (λ e, if e is IndexDocs docs then Some docs else None) evs.

(** The number of updates the progress sink received among [evs]. *)
Definition progress_updates (evs : list event) : nat :=
  length (List.filter (λ e, if e is ProgressUpdate then true else false) evs).

End Indexable.

(** ** Reading a reconciliation run *)

Module Run.

(** The keyword dictionary a declared name resolves to. *)
Definition declared_opts (cls : SolrSchema.t) (name : string) : gmap string pyval :=
  match SolrSchema.class_lookup name cls with
  | Some a => if SolrSchema.attr_get a is PDict d then d else ∅
  | None => ∅
  end.

(** Names the delete phase never touches. *)
Definition protected (name : string) : bool :=
  bool_decide (name = "id") || String.prefix "_" name.

Definition is_add_field (name : string) (c : Solr.call) : bool :=
  if c is Solr.AddField n _ then bool_decide (n = name) else false.

Definition is_replace_field (name : string) (c : Solr.call) : bool :=
  if c is Solr.ReplaceField n _ then bool_decide (n = name) else false.

Definition is_delete_field (name : string) (c : Solr.call) : bool :=
  if c is Solr.DeleteField n then bool_decide (n = name) else false.

Definition count (p : Solr.call → bool) (cs : list Solr.call) : nat :=
  length (List.filter p cs).

(** How many entries of [l] satisfy [p]. *)
Definition how_many {X} (p : X → bool) (l : list X) : Z :=
  Z.of_nat (length (List.filter p l)).

(** The call phase one issues for a declared field name. *)
Definition field_call (cls : SolrSchema.t) (current : list string) (name : string)
  : Solr.call :=
  if bool_decide (name ∉ current)
  then Solr.AddField name (declared_opts cls name)
  else Solr.ReplaceField name (declared_opts cls name).

Definition field_key (current : list string) (name : string) : string :=
  if bool_decide (name ∉ current) then "added" else "replaced".

(** The remote names phase two deletes. *)
Definition orphans (configured current : list string) : list string :=
  List.filter (λ n, negb (protected n) && bool_decide (n ∉ configured)) current.

(** The call issued for a declared field type. *)
Definition type_call (cls : SolrSchema.t) (current : list string) (name : string)
  : Solr.call :=
  let kw := <["name" := PStr name]> (declared_opts cls name) in
  if bool_decide (name ∈ current)
  then Solr.ReplaceFieldType kw
  else Solr.AddFieldType kw.

Definition type_key (current : list string) (name : string) : string :=
  if bool_decide (name ∈ current) then "updated" else "added".

(** Counting one key per entry of [keys]. *)
Definition tally (keys : list string) (stats : gmap string Z) : gmap string Z :=
  foldl (λ st k, incr k st) stats keys.

(** The remote after it served [cs] in order. *)
Definition served (cs : list Solr.call) (s : Solr.t) : Solr.t :=
  foldl (λ s c, Solr.serve c s) s cs.

(** The whole trace of a fields run against the listing [current]. *)
Definition fields_trace (cls : SolrSchema.t) (current : list string)
  : list Solr.call :=
  Solr.ListFields
    :: (field_call cls current <$> SolrSchema.get_field_names cls)
    ++ (Solr.DeleteField <$> orphans (SolrSchema.get_field_names cls) current).

Definition fields_stats (cls : SolrSchema.t) (current : list string)
  : gmap string Z :=
  tally ((λ _, "deleted") <$> orphans (SolrSchema.get_field_names cls) current)
    (tally (field_key current <$> SolrSchema.get_field_names cls) ∅).

(** The whole trace of a field-types run against the listing [current]. *)
Definition types_trace (cls : SolrSchema.t) (current : list string)
  : list Solr.call :=
  Solr.ListFieldTypes
    :: (type_call cls current <$> SolrSchema.get_field_types cls).

Definition types_stats (cls : SolrSchema.t) (current : list string)
  : gmap string Z :=
  tally (type_key current <$> SolrSchema.get_field_types cls) ∅.

(** What the remote definitions become when a declared name is added or
    replaced with the definition [def] gives it, against the listing
    [current]. *)
Definition upsert (current : list string) (def : string → gmap string pyval)
    (l : list (string * gmap string pyval)) (name : string)
  : list (string * gmap string pyval) :=
  if bool_decide (name ∈ current)
  then Solr.overwrite name (def name) l
  else l ++ [(name, def name)].

(** The definition the remote stores for a declared field type. *)
Definition type_def (cls : SolrSchema.t) (name : string) : gmap string pyval :=
  delete "name" (<["name" := PStr name]> (declared_opts cls name)).

(** What one round of the field-type loop does to its local state. *)
Definition types_step (current : list string)
    (acc : gmap string Z * gmap string (gmap string pyval)) (name : string)
  : gmap string Z * gmap string (gmap string pyval) :=
  (incr (type_key current name) acc.1,
   match acc.2 !! name with
   | Some d => <[name := delete "name" d]> acc.2
   | None => acc.2
   end).

(** The invariant of the field-type loop: the names still to come are
    field types of the class, each once, and the local copy of the listing
    knows exactly the listed names and still holds the [name] key of every
    entry not processed yet. *)
Definition types_inv (cls : SolrSchema.t) (current : list string)
    (acc : gmap string Z * gmap string (gmap string pyval)) (rest : list string)
  : Prop :=
  NoDup rest ∧
  (∀ n, n ∈ rest → ∃ ft, SolrSchema.class_lookup n cls = Some (SolrSchema.AFieldType ft)) ∧
  (∀ n, is_Some (acc.2 !! n) ↔ n ∈ current) ∧
  (∀ n d, n ∈ rest → acc.2 !! n = Some d → is_Some (d !! "name")).

End Run.

(** ** A sample configuration and remote *)

Module Sample.

Definition text_en : SolrFieldType.t :=
  SolrFieldType.__init__ (PStr "solr.TextField")
    (SolrAnalyzer.mk (PStr "solr.StandardTokenizerFactory")
       (PList [PDict {[ "class" := PStr "solr.LowerCaseFilterFactory" ]}])).

(** A schema class declaring two string fields and one field type. *)
Definition schema : SolrSchema.t :=
  [("__module__", SolrSchema.AOther (PStr "testapp.solr"));
   ("title", SolrSchema.AField (SolrStringField.__init__ None None));
   ("text_en", SolrSchema.AFieldType text_en);
   ("author", SolrSchema.AField (SolrStringField.__init__ (Some (PBool true)) None))].

(** A schema class declaring fields only. *)
Definition fields_only : SolrSchema.t :=
  [("title", SolrSchema.AField (SolrStringField.__init__ None None))].

(** A remote that lists [author], a stale field and the special fields,
    and already knows [text_en]. *)
Definition remote : Solr.t :=
  {| Solr.fields := [("id", ∅); ("_version_", ∅); ("author", ∅); ("old", ∅)];
     Solr.field_types := [("text_en", ∅)];
     Solr.calls := [] |}.

(** A remote that already lists every declared field and field type and
    nothing to delete. *)
Definition settled : Solr.t :=
  {| Solr.fields := [("id", ∅); ("_version_", ∅); ("title", ∅); ("author", ∅)];
     Solr.field_types := [("text_en", ∅)];
     Solr.calls := [] |}.

(** A remote with an empty schema. *)
Definition blank : Solr.t :=
  {| Solr.fields := []; Solr.field_types := []; Solr.calls := [] |}.

(** A client for a local core, the handler [Update(client, 1000)] built in
    an empty store, and the store it is built in. *)
Definition client : Update.SolrClient :=
  {| Update.update_handler := "update";
     Update.build_url := λ handler, "http://localhost:8983/solr/core/" +:+ handler |}.

(** The simple indexable of the tests: item type [thing], identified by a
    string. *)
#[global] Instance simple_indexable : Indexable.Record_ string :=
  {| Indexable.index_item_type := λ _, "thing"; Indexable.natural_id := λ id, id |}.

(** Ten records. *)
Definition ten : list string := ["a"; "b"; "c"; "d"; "e"; "f"; "g"; "h"; "i"; "j"].

(** Externals that never fail: a [urljoin] that appends the relative path,
    which is what urllib answers at the sample handler's address, an http
    address followed by a slash, and a transport that accepts every
    request. *)
Definition externals : Update.Externals :=
  {| Update.urljoin := λ base rel, Ok (base +:+ rel);
     Update.transport := λ _ _, Ok () |}.

(** Externals whose [urljoin] rejects every base. *)
Definition no_join : Update.Externals :=
  {| Update.urljoin := λ _ _, Raise ValueError;
     Update.transport := λ _ _, Ok () |}.

(** Externals whose transport fails on the second request and on every
    later one. *)
Definition flaky : Update.Externals :=
  {| Update.urljoin := λ base rel, Ok (base +:+ rel);
     Update.transport := λ earlier _,
       if earlier is [] then Ok () else Raise (Exception "connection refused") |}.

Definition nothing : Update.world := {| Update.heap := ∅; Update.requests := [] |}.

Definition handler : Update.t :=
  {| Update.client := client;
     Update.url := "http://localhost:8983/solr/core/update";
     Update.headers := 1%positive;
     Update.params := 2%positive |}.

Definition world : Update.world :=
  {| Update.heap :=
       {[ 1%positive := {[ "Content-Type" := PStr "application/json" ]};
          2%positive := {[ "commitWithin" := PInt 1000 ]} ]};
     Update.requests := [] |}.

End Sample.

(** ** parasolr/django.py: the client configured from Django settings *)

Module Django.

(** What the settings-driven initialisers can raise: Django's
    [ImproperlyConfigured], or a builtin exception. *)
Inductive error :=
  | ImproperlyConfigured (msg : string)
  | Builtin (e : exn).

Inductive outcome (A : Type) :=
  | Returns (a : A)
  | Raises (e : error).
Arguments Returns {A} a.
Arguments Raises {A} e.

#[global] Instance outcome_ret : MRet outcome := λ A a, Returns a.

#[global] Instance outcome_bind : MBind outcome := λ A B f m,
  match m with
  | Returns a => f a
  | Raises e => Raises e
  end.

(** [v.get(key, default)]: only a dictionary has [get]. *)
Definition get (v : pyval) (key : string) (dflt : pyval) : outcome pyval :=
  match v with
  | PDict d => Returns (default dflt (d !! key))
  | _ => Raises (Builtin AttributeError)
  end.

(** The double quote character, for messages that quote a word. *)
Definition quote : string :=
  String (Ascii.Ascii false true false false false true false false) "".

(** Modelled from the spec: the base client (parasolr/solr/client.py) is not
    part of the sources; a client stands for the arguments its base
    initialiser was called with. *)
Record client := mkClient {
  url : pyval;
  collection : pyval;
  args : list pyval;
  kwargs : gmap string pyval
}.

End Django.

Module DjangoSolrClient.

(** [SolrClient.__init__(self, *args, **kwargs)], followed up to the call of
    the base initialiser; [settings] holds the attributes of
    [django.conf.settings]. *)
Definition __init__ (settings : gmap string pyval) (args : list pyval)
    (kwargs : gmap string pyval) : Django.outcome Django.client :=
  let solr_opts := default PNone (settings !! "SOLR_CONNECTIONS") in
  if negb (truthy solr_opts) then
    Django.Raises (Django.ImproperlyConfigured
      "SolrClient requires SOLR_CONNECTIONS in settings")
  else
    default_solr ← Django.get solr_opts "default" PNone;
    if negb (truthy default_solr) then
      Django.Raises (Django.ImproperlyConfigured
        ("No " +:+ Django.quote +:+ "default" +:+ Django.quote
           +:+ " section in SOLR_CONNECTIONS configuration"))
    else
      url ← Django.get default_solr "URL" PNone;
      if negb (truthy url) then
        Django.Raises (Django.ImproperlyConfigured
          "No URL in default SOLR_CONNECTIONS configuration")
      else
        collection ← Django.get default_solr "COLLECTION" (PStr "");
        commit_within ← Django.get default_solr "COMMITWITHIN" PNone;
        let kwargs :=
          if kwargs !! "commitWithin" is None then
            if truthy commit_within
            then <["commitWithin" := commit_within]> kwargs
            else kwargs
          else kwargs in
        mret {| Django.url := url; Django.collection := collection;
                Django.args := args; Django.kwargs := kwargs |}.

End DjangoSolrClient.

Module DjangoSolrQuerySet.

(** [SolrQuerySet.__init__(self, solr=None)], in parasolr/django.py and in
    parasolr/django/queryset.py alike: the client handed to the base query
    set is [solr or SolrClient()].  The argument is [None] or an object of
    some class [X], and [or] asks for its truth value: [truth] is what
    Python answers for an object, true unless its class says otherwise
    through [__bool__] or [__len__].  The result is the object handed in, on
    the left, or a client built from the settings, on the right. *)
Definition __init__ {X} (truth : X → bool) (settings : gmap string pyval)
    (solr : option X) : Django.outcome (X + Django.client) :=
  match solr with
  | Some x =>
      if truth x then mret (inl x)
      else client ← DjangoSolrClient.__init__ settings [] ∅; mret (inr client)
  | None => client ← DjangoSolrClient.__init__ settings [] ∅; mret (inr client)
  end.

End DjangoSolrQuerySet.

(** ** Using an update handler over time *)

Module Session.

(** One call on an update handler. *)
Inductive op :=
  | Index (docs commit commit_within : pyval)
  | DeleteById (id_list : pyval)
  | DeleteByQuery (query : pyval).

Definition perform {E : Update.Externals} (self : Update.t) (o : op)
  : Eff Update.world unit :=
  match o with
  | Index docs commit commit_within => Update.index self docs commit commit_within
  | DeleteById id_list => Update.delete_by_id self id_list
  | DeleteByQuery query => Update.delete_by_query self query
  end.

(** The calls [ops], one after the other. *)
Definition run {E : Update.Externals} (self : Update.t) (ops : list op)
  : Eff Update.world unit :=
  for_each ops () (λ _ o, perform self o).

End Session.

(** ** Reading a run, continued *)

Module Trace.

(** The field a call writes, if it is an [add_field] or a [replace_field]. *)
Definition written (c : Solr.call) : option string :=
  match c with
  | Solr.AddField n _ | Solr.ReplaceField n _ => Some n
  | _ => None
  end.



(** The parameters [index] prepares in its local copy, from the stored
    ones. *)
Definition prepared (stored : gmap string pyval) (commit commit_within : pyval)
  : gmap string pyval :=
  let base :=
    if truthy commit_within then <["commitWithin" := commit_within]> stored else stored in
  if truthy commit then <["commit" := PBool true]> (delete "commitWithin" base) else base.

(** When [index] has no [commitWithin] to delete. *)
Definition nothing_to_delete (stored : gmap string pyval) (commit commit_within : pyval)
  : bool :=
  truthy commit && negb (truthy commit_within)
  && (if stored !! "commitWithin" is None then true else false).

End Trace.

(** ** More samples *)

Module Cases.

(** Settings with a default connection that sets a commit delay. *)
Definition settings : gmap string pyval :=
  {[ "SOLR_CONNECTIONS" :=
       PDict {[ "default" :=
                  PDict {[ "URL" := PStr "http://localhost:8983/solr/";
                           "COLLECTION" := PStr "mycore";
                           "COMMITWITHIN" := PInt 1000 ]} ]} ]}.

(** Settings whose default connection has no URL. *)
Definition no_url : gmap string pyval :=
  {[ "SOLR_CONNECTIONS" :=
       PDict {[ "default" := PDict {[ "COLLECTION" := PStr "mycore" ]} ]} ]}.

(** Settings without a default connection. *)
Definition no_default : gmap string pyval :=
  {[ "SOLR_CONNECTIONS" :=
       PDict {[ "other" := PDict {[ "URL" := PStr "http://localhost:8983/solr/" ]} ]} ]}.

(** Settings whose connections are not a dictionary. *)
Definition not_a_dict : gmap string pyval :=
  {[ "SOLR_CONNECTIONS" := PStr "http://localhost:8983/solr/" ]}.

(** A schema class declaring no field at all. *)
Definition types_only : SolrSchema.t :=
  [("__module__", SolrSchema.AOther (PStr "testapp.solr"));
   ("text_en", SolrSchema.AFieldType Sample.text_en)].

(** A handler whose stored parameters lack [commitWithin], and its store. *)
Definition bare_handler : Update.t :=
  {| Update.client := Sample.client;
     Update.url := "http://localhost:8983/solr/core/update";
     Update.headers := 1%positive;
     Update.params := 2%positive |}.

Definition bare_world : Update.world :=
  {| Update.heap := {[ 1%positive := ∅; 2%positive := ∅ ]};
     Update.requests := [] |}.

End Cases.

(** Deciding equations between string literals where they stand. *)
Ltac literal_keys :=
  repeat match goal with
  | |- context [bool_decide (?a = ?b)] =>
      first [ rewrite (bool_decide_eq_true_2 (a = b)) by reflexivity
            | rewrite (bool_decide_eq_false_2 (a = b)) by discriminate ]
  end.

(** * Properties *)

(** ** Effects *)

Lemma bind_run {S A B} (m : Eff S A) (f : A → Eff S B) (s : S) :
  (m ≫= f) s =
  match m s with
  | (Ok a, s') => f a s'
  | (Raise e, s') => (Raise e, s')
  end.
Proof. reflexivity. Qed.

Lemma bind_ok {S A B} (m : Eff S A) (f : A → Eff S B) (s s' : S) (a : A) :
  m s = (Ok a, s') → (m ≫= f) s = f a s'.
Proof. intros Hm. rewrite bind_run, Hm. reflexivity. Qed.

(** A loop whose body succeeds wherever the invariant holds is a fold. *)
Lemma for_each_fold {S X A} (body : A → X → Eff S A)
    (step : A → X → A) (next : S → X → S) (I : A → list X → Prop) :
  (∀ acc x rest s, I acc (x :: rest) →
     body acc x s = (Ok (step acc x), next s x) ∧ I (step acc x) rest) →
  ∀ l acc s, I acc l →
    for_each l acc body s = (Ok (foldl step acc l), foldl next s l).
Proof.
  intros Hbody l. induction l as [|x l IH]; intros acc s HI; [reflexivity|].
  destruct (Hbody acc x l s HI) as [Hrun HI'].
  simpl. rewrite (bind_ok _ _ _ _ _ Hrun). apply IH, HI'.
Qed.

(** ** Counters *)

Lemma stats_get_incr (k k' : string) (stats : gmap string Z) :
  stats_get (incr k stats) k' =
  stats_get stats k' + (if bool_decide (k = k') then 1 else 0).
Proof.
  unfold incr, stats_get. case_bool_decide as Hk.
  - subst. rewrite lookup_insert_eq. reflexivity.
  - rewrite lookup_insert_ne by done. lia.
Qed.

Lemma stats_get_tally (keys : list string) (stats : gmap string Z) (k : string) :
  stats_get (Run.tally keys stats) k =
  stats_get stats k + Run.how_many (λ k', bool_decide (k' = k)) keys.
Proof.
  unfold Run.tally, Run.how_many. revert stats.
  induction keys as [|k0 keys IH]; intros stats; simpl; [lia|].
  rewrite IH, stats_get_incr. case_bool_decide; simpl; lia.
Qed.

Lemma stats_get_empty (k : string) : stats_get ∅ k = 0.
Proof. unfold stats_get. rewrite lookup_empty. reflexivity. Qed.

Lemma how_many_fmap {X Y} (f : X → Y) (p : Y → bool) (l : list X) :
  Run.how_many p (f <$> l) = Run.how_many (λ x, p (f x)) l.
Proof.
  unfold Run.how_many. f_equal.
  induction l as [|x l IH]; [reflexivity|].
  rewrite fmap_cons. simpl. destruct (p (f x)); simpl; congruence.
Qed.

Lemma how_many_ext {X} (p q : X → bool) (l : list X) :
  (∀ x, x ∈ l → p x = q x) → Run.how_many p l = Run.how_many q l.
Proof.
  unfold Run.how_many. intros Hpq. f_equal.
  induction l as [|x l IH]; simpl; [reflexivity|].
  rewrite (Hpq x) by left.
  assert (length (List.filter p l) = length (List.filter q l)) as Hl.
  { apply IH. intros y Hy. apply Hpq. by right. }
  destruct (q x); simpl; congruence.
Qed.

Lemma how_many_false {X} (l : list X) : Run.how_many (λ _, false) l = 0.
Proof. unfold Run.how_many. induction l; simpl; [reflexivity|assumption]. Qed.

Lemma how_many_true {X} (l : list X) :
  Run.how_many (λ _, true) l = Z.of_nat (length l).
Proof.
  unfold Run.how_many. f_equal. induction l; simpl; [reflexivity|congruence].
Qed.

(** ** Field reconciliation *)

Lemma class_lookup_filter (p : SolrSchema.attr → bool) (cls : SolrSchema.t) (n : string) :
  NoDup cls.*1 →
  n ∈ (List.filter (λ item, p item.2) cls).*1 →
  ∃ a, SolrSchema.class_lookup n cls = Some a ∧ p a = true.
Proof.
  induction cls as [|[k a] cls IH]; intros Hnd Hin; simpl in *.
  - by apply elem_of_nil in Hin.
  - apply NoDup_cons in Hnd as [Hk Hnd].
    assert (n ∈ (List.filter (λ item, p item.2) cls).*1 → n ∈ cls.*1) as Hsub.
    { intros H. apply list_elem_of_fmap in H as [item [-> H]].
      apply list_elem_of_fmap. exists item. split; [done|].
      apply list_elem_of_In, filter_In in H as [H _]. by apply list_elem_of_In. }
    case_decide as Hkn.
    + subst k. destruct (p a) eqn:Hp.
      * eauto.
      * exfalso. apply Hk, Hsub, Hin.
    + apply IH; [done|]. destruct (p a); [|done].
      rewrite fmap_cons in Hin. apply elem_of_cons in Hin as [Hin|Hin]; [|done].
      simpl in Hin. congruence.
Qed.

Lemma foldl_filter {A X} (p : X → bool) (g : A → X → A) (l : list X) (a : A) :
  foldl (λ a x, if p x then g a x else a) a l = foldl g a (List.filter p l).
Proof.
  revert a. induction l as [|x l IH]; intros a; simpl; [reflexivity|].
  rewrite IH. by destruct (p x).
Qed.

Lemma foldl_fmap {A X Y} (f : X → Y) (g : A → Y → A) (l : list X) (a : A) :
  foldl (λ a x, g a (f x)) a l = foldl g a (f <$> l).
Proof.
  revert a. induction l as [|x l IH]; intros a; [reflexivity|].
  rewrite fmap_cons. simpl. apply IH.
Qed.

Lemma fields_phase_one (cls : SolrSchema.t) (current : list string) (names : list string)
    (stats : gmap string Z) (s : Solr.t) :
  Forall (λ n, ∃ f, SolrSchema.class_lookup n cls = Some (SolrSchema.AField f)) names →
  for_each names stats (λ stats field_name,
      field_opts ← SolrSchema.getattr cls field_name;
      if bool_decide (field_name ∉ current) then
        Solr.add_field field_name field_opts;;
        mret (incr "added" stats)
      else
        Solr.replace_field field_name field_opts;;
        mret (incr "replaced" stats)) s
  = (Ok (Run.tally (Run.field_key current <$> names) stats),
     Run.served (Run.field_call cls current <$> names) s).
Proof.
  intros Hnames. unfold Run.tally, Run.served.
  rewrite <- !foldl_fmap.
  apply (for_each_fold _ (λ st n, incr (Run.field_key current n) st)
           (λ s n, Solr.serve (Run.field_call cls current n) s)
           (λ _ l, Forall (λ n, ∃ f, SolrSchema.class_lookup n cls = Some (SolrSchema.AField f)) l));
    [|done].
  intros acc x rest s0 Hall. apply Forall_cons in Hall as [[f Hf] Hrest].
  split; [|done].
  unfold SolrSchema.getattr, Run.field_call, Run.field_key, Run.declared_opts.
  rewrite Hf. simpl.
  case_bool_decide; reflexivity.
Qed.

Lemma fields_phase_two (configured current : list string)
    (stats : gmap string Z) (s : Solr.t) :
  for_each current stats (λ stats field_name,
      if bool_decide (field_name = "id") || String.prefix "_" field_name then
        mret stats
      else if bool_decide (field_name ∉ configured) then
        let stats := incr "deleted" stats in
        Solr.delete_field field_name;;
        mret stats
      else mret stats) s
  = (Ok (Run.tally ((λ _, "deleted") <$> Run.orphans configured current) stats),
     Run.served (Solr.DeleteField <$> Run.orphans configured current) s).
Proof.
  unfold Run.tally, Run.served, Run.orphans.
  rewrite <- !foldl_fmap, <- !foldl_filter.
  apply (for_each_fold _
           (λ st n, if negb (Run.protected n) && bool_decide (n ∉ configured)
                    then incr "deleted" st else st)
           (λ s n, if negb (Run.protected n) && bool_decide (n ∉ configured)
                   then Solr.serve (Solr.DeleteField n) s else s)
           (λ _ _, True)); [|done].
  intros acc x rest s0 _. split; [|done].
  unfold Run.protected.
  destruct (bool_decide (x = "id") || String.prefix "_" x); simpl; [reflexivity|].
  case_bool_decide; reflexivity.
Qed.

Lemma served_app (cs cs' : list Solr.call) (s : Solr.t) :
  Run.served (cs ++ cs') s = Run.served cs' (Run.served cs s).
Proof. apply foldl_app. Qed.

Lemma calls_served (cs : list Solr.call) (s : Solr.t) :
  Solr.calls (Run.served cs s) = Solr.calls s ++ cs.
Proof.
  revert s. induction cs as [|c cs IH]; intros s.
  - by rewrite app_nil_r.
  - change (Run.served (c :: cs) s) with (Run.served cs (Solr.serve c s)).
    rewrite IH. simpl.
    by rewrite <- app_assoc.
Qed.

(** The fields run, in full: it always returns, and its counters and the
    calls reaching the remote are those of [Run.fields_stats] and
    [Run.fields_trace] at the listing fetched first. *)
Lemma configure_solr_fields_run (cls : SolrSchema.t) (s : Solr.t) :
  NoDup cls.*1 →
  SolrSchema.configure_solr_fields cls s =
  (Ok (Run.fields_stats cls (Solr.fields s).*1),
   Run.served (Run.fields_trace cls (Solr.fields s).*1) s).
Proof.
  intros Hnd. unfold SolrSchema.configure_solr_fields, Solr.list_fields.
  set (current := (Solr.fields s).*1).
  assert (Forall (λ n, ∃ f, SolrSchema.class_lookup n cls = Some (SolrSchema.AField f))
            (SolrSchema.get_field_names cls)) as Hnames.
  { apply Forall_forall. intros n Hn.
    destruct (class_lookup_filter SolrSchema.isinstance_SolrField cls n Hnd Hn)
      as [[f| |] [Ha Hp]]; [eauto|done..]. }
  unfold Run.fields_stats, Run.fields_trace.
  change (Solr.ListFields :: ?l) with ([Solr.ListFields] ++ l).
  rewrite !served_app.
  rewrite bind_run. simpl.
  fold current.
  rewrite (bind_ok _ _ _ _ _ (fields_phase_one cls current _ ∅ _ Hnames)).
  rewrite (bind_ok _ _ _ _ _ (fields_phase_two _ current _ _)).
  reflexivity.
Qed.

Lemma filter_fst_subset {V} (p : V → bool) (l : list (string * V)) (n : string) :
  n ∈ (List.filter (λ item, p item.2) l).*1 → n ∈ l.*1.
Proof.
  intros H. apply list_elem_of_fmap in H as [item [-> H]].
  apply list_elem_of_fmap. exists item. split; [done|].
  apply list_elem_of_In, filter_In in H as [H _]. by apply list_elem_of_In.
Qed.

Lemma filter_fst_NoDup {V} (p : V → bool) (l : list (string * V)) :
  NoDup l.*1 → NoDup (List.filter (λ item, p item.2) l).*1.
Proof.
  induction l as [|[k a] l IH]; intros Hnd; simpl in *; [constructor|].
  apply NoDup_cons in Hnd as [Hk Hnd]. destruct (p a); [|by apply IH].
  rewrite fmap_cons. apply NoDup_cons. split; [|by apply IH].
  intros Hin. by apply Hk, (filter_fst_subset p).
Qed.

Lemma filter_fmap_length {X Y} (f : X → Y) (p : Y → bool) (l : list X) :
  length (List.filter p (f <$> l)) = length (List.filter (λ x, p (f x)) l).
Proof.
  induction l as [|x l IH]; [reflexivity|].
  rewrite fmap_cons. simpl. destruct (p (f x)); simpl; congruence.
Qed.

(** In a list without repetition a predicate that singles out [x] is met
    once if [x] is there and meets it, and never otherwise. *)
Lemma filter_once {X} `{EqDecision X} (q : X → bool) (l : list X) (x : X) :
  NoDup l → (∀ y, q y = true → y = x) →
  length (List.filter q l) = if bool_decide (x ∈ l) && q x then 1%nat else 0%nat.
Proof.
  intros Hnd Hq. induction l as [|y l IH]; [reflexivity|].
  apply NoDup_cons in Hnd as [Hy Hnd]. specialize (IH Hnd). simpl.
  destruct (q y) eqn:Hqy.
  - apply Hq in Hqy as Hyx. subst y. simpl. rewrite IH.
    rewrite (bool_decide_eq_false_2 (x ∈ l)) by done.
    rewrite bool_decide_eq_true_2 by left. by rewrite Hqy.
  - rewrite IH. destruct (q x) eqn:Hqx; [|by rewrite !andb_false_r].
    assert (x ≠ y) by congruence.
    rewrite !andb_true_r.
    rewrite (bool_decide_ext (x ∈ y :: l) (x ∈ l)); [done|].
    rewrite elem_of_cons. split; [intros [?|?]; [congruence|done]|by right].
Qed.

Lemma count_app (p : Solr.call → bool) (cs cs' : list Solr.call) :
  Run.count p (cs ++ cs') = (Run.count p cs + Run.count p cs')%nat.
Proof. unfold Run.count. by rewrite List.filter_app, length_app. Qed.

Lemma count_none (p : Solr.call → bool) (cs : list Solr.call) :
  (∀ c, c ∈ cs → p c = false) → Run.count p cs = 0%nat.
Proof.
  unfold Run.count. induction cs as [|c cs IH]; intros H; [reflexivity|].
  simpl. rewrite (H c) by left. apply IH. intros c' Hc'. apply H. by right.
Qed.

Lemma count_fmap {X} (f : X → Solr.call) (p : Solr.call → bool) (l : list X) :
  Run.count p (f <$> l) = length (List.filter (λ x, p (f x)) l).
Proof. apply filter_fmap_length. Qed.

Lemma get_field_names_NoDup (cls : SolrSchema.t) :
  NoDup cls.*1 → NoDup (SolrSchema.get_field_names cls).
Proof. apply (filter_fst_NoDup SolrSchema.isinstance_SolrField). Qed.

(** C1.  For a schema class whose attribute names are distinct (they are the
    keys of a class dictionary), [configure_solr_fields] returns, and among
    the calls it issued every declared field name absent from the remote
    listing got exactly one [add_field] call and no [replace_field] call,
    every declared name present in the listing got exactly one
    [replace_field] call and no [add_field] call, each with the declared
    options; [stats.added] is the number of declared names absent remotely
    and [stats.replaced] the number of declared names present remotely. *)
Theorem configure_solr_fields_add_replace (cls : SolrSchema.t) (s : Solr.t) :
  NoDup cls.*1 →
  let current := (Solr.fields s).*1 in
  let declared := SolrSchema.get_field_names cls in
  ∃ stats s' issued,
    SolrSchema.configure_solr_fields cls s = (Ok stats, s') ∧
    Solr.calls s' = Solr.calls s ++ issued ∧
    (∀ name, name ∈ declared → name ∉ current →
       Run.count (Run.is_add_field name) issued = 1%nat ∧
       Run.count (Run.is_replace_field name) issued = 0%nat ∧
       Solr.AddField name (Run.declared_opts cls name) ∈ issued) ∧
    (∀ name, name ∈ declared → name ∈ current →
       Run.count (Run.is_replace_field name) issued = 1%nat ∧
       Run.count (Run.is_add_field name) issued = 0%nat ∧
       Solr.ReplaceField name (Run.declared_opts cls name) ∈ issued) ∧
    stats_get stats "added" = Run.how_many (λ n, bool_decide (n ∉ current)) declared ∧
    stats_get stats "replaced" = Run.how_many (λ n, bool_decide (n ∈ current)) declared.
Proof.
  intros Hnd current declared.
  pose proof (get_field_names_NoDup cls Hnd) as Hdecl. fold declared in Hdecl.
  eexists _, _, (Run.fields_trace cls current).
  split; [apply (configure_solr_fields_run cls s Hnd)|].
  split; [apply calls_served|].
  assert (∀ p,
    (∀ n, p (Solr.DeleteField n) = false) → p Solr.ListFields = false →
    Run.count p (Run.fields_trace cls current)
    = length (List.filter (λ n, p (Run.field_call cls current n)) declared)) as Hcount.
  { intros p Hdel Hlist. unfold Run.fields_trace.
    change (Solr.ListFields :: ?l) with ([Solr.ListFields] ++ l).
    rewrite !count_app, count_fmap.
    rewrite (count_none p [_]), (count_none p (_ <$> _)); [fold declared; lia| |].
    - intros c [n [-> _]]%list_elem_of_fmap. apply Hdel.
    - intros c ->%list_elem_of_singleton. apply Hlist. }
  assert (∀ name, name ∈ declared →
    Run.field_call cls current name ∈ Run.fields_trace cls current) as Hin.
  { intros name Hname. unfold Run.fields_trace. right.
    apply elem_of_app. left. apply list_elem_of_fmap. eauto. }
  split; [|split; [|split]].
  - intros name Hname Hcur. split; [|split].
    + rewrite Hcount by done.
      rewrite (filter_once _ _ name Hdecl).
      * rewrite (bool_decide_eq_true_2 _ Hname). unfold Run.field_call.
        rewrite (bool_decide_eq_true_2 _ Hcur). simpl.
        by rewrite bool_decide_eq_true_2.
      * intros y. unfold Run.field_call. case_bool_decide; simpl; [|done].
        by intros ?%bool_decide_eq_true.
    + rewrite Hcount by done.
      rewrite (filter_once _ _ name Hdecl).
      * unfold Run.field_call. rewrite (bool_decide_eq_true_2 _ Hcur). simpl.
        by rewrite andb_false_r.
      * intros y. unfold Run.field_call. case_bool_decide; simpl; [done|].
        by intros ?%bool_decide_eq_true.
    + specialize (Hin name Hname). unfold Run.field_call in Hin.
      by rewrite (bool_decide_eq_true_2 _ Hcur) in Hin.
  - intros name Hname Hcur. split; [|split].
    + rewrite Hcount by done.
      rewrite (filter_once _ _ name Hdecl).
      * rewrite (bool_decide_eq_true_2 _ Hname). unfold Run.field_call.
        rewrite (bool_decide_eq_false_2 (name ∉ current)) by (intros H; by apply H). simpl.
        by rewrite bool_decide_eq_true_2.
      * intros y. unfold Run.field_call. case_bool_decide; simpl; [done|].
        by intros ?%bool_decide_eq_true.
    + rewrite Hcount by done.
      rewrite (filter_once _ _ name Hdecl).
      * unfold Run.field_call.
        rewrite (bool_decide_eq_false_2 (name ∉ current)) by (intros H; by apply H). simpl.
        by rewrite andb_false_r.
      * intros y. unfold Run.field_call. case_bool_decide; simpl; [|done].
        by intros ?%bool_decide_eq_true.
    + specialize (Hin name Hname). unfold Run.field_call in Hin.
      by rewrite (bool_decide_eq_false_2 (name ∉ current)) in Hin by (intros H; by apply H).
  - clear Hcount Hin Hdecl. subst current declared.
    set (current := (Solr.fields s).*1).
    unfold Run.fields_stats. rewrite !stats_get_tally, stats_get_empty.
    rewrite !how_many_fmap, how_many_false.
    rewrite (how_many_ext _ (λ n, bool_decide (n ∉ current))); [lia|].
    intros n _. unfold Run.field_key.
    by destruct (bool_decide (n ∉ current)).
  - clear Hcount Hin Hdecl. subst current declared.
    set (current := (Solr.fields s).*1).
    unfold Run.fields_stats. rewrite !stats_get_tally, stats_get_empty.
    rewrite !how_many_fmap, how_many_false.
    rewrite (how_many_ext _ (λ n, bool_decide (n ∈ current))); [lia|].
    intros n _. unfold Run.field_key.
    destruct (decide (n ∈ current)) as [Hn|Hn].
    + rewrite (bool_decide_eq_false_2 (n ∉ current)) by (intros H; by apply H).
      by rewrite (bool_decide_eq_true_2 (n ∈ current)).
    + rewrite (bool_decide_eq_true_2 (n ∉ current)) by done.
      by rewrite (bool_decide_eq_false_2 (n ∈ current)).
Qed.

Lemma orphans_occurrences (configured current : list string) (name : string) :
  Run.protected name = false → name ∉ configured →
  List.filter (λ n, bool_decide (n = name)) (Run.orphans configured current)
  = List.filter (λ n, bool_decide (n = name)) current.
Proof.
  intros Hprot Hdecl. unfold Run.orphans.
  induction current as [|n l IH]; [reflexivity|]. simpl.
  destruct (decide (n = name)) as [->|Hne].
  - rewrite Hprot, (bool_decide_eq_true_2 (name ∉ configured)) by done. simpl.
    rewrite !(bool_decide_eq_true_2 (name = name)) by done. by f_equal.
  - destruct (negb (Run.protected n) && bool_decide (n ∉ configured)); simpl;
      rewrite (bool_decide_eq_false_2 (n = name)) by done; apply IH.
Qed.

Lemma orphans_protected (configured current : list string) (name : string) :
  Run.protected name = true →
  List.filter (λ n, bool_decide (n = name)) (Run.orphans configured current) = [].
Proof.
  intros Hprot. unfold Run.orphans.
  induction current as [|n l IH]; [reflexivity|]. simpl.
  destruct (negb (Run.protected n) && bool_decide (n ∉ configured)) eqn:Hn;
    [|apply IH]. simpl.
  rewrite (bool_decide_eq_false_2 (n = name)); [apply IH|].
  intros ->. by rewrite Hprot in Hn.
Qed.

(** C2.  For a schema class whose attribute names are distinct,
    [configure_solr_fields] returns, and among the calls it issued a name of
    the remote listing that is neither declared nor protected got one
    [delete_field] call per time the listing shows it, so exactly one when
    the listing shows each name once; a name equal to [id] or beginning with
    an underscore got none, declared or not; [stats.deleted] is the number
    of listed names that are neither protected nor declared. *)
Theorem configure_solr_fields_delete (cls : SolrSchema.t) (s : Solr.t) :
  NoDup cls.*1 →
  let current := (Solr.fields s).*1 in
  let declared := SolrSchema.get_field_names cls in
  ∃ stats s' issued,
    SolrSchema.configure_solr_fields cls s = (Ok stats, s') ∧
    Solr.calls s' = Solr.calls s ++ issued ∧
    (∀ name, name ∈ current → name ∉ declared → Run.protected name = false →
       Run.count (Run.is_delete_field name) issued
       = length (List.filter (λ n, bool_decide (n = name)) current) ∧
       (NoDup current → Run.count (Run.is_delete_field name) issued = 1%nat)) ∧
    (∀ name, name = "id" ∨ String.prefix "_" name = true →
       Run.count (Run.is_delete_field name) issued = 0%nat) ∧
    stats_get stats "deleted"
    = Run.how_many (λ n, negb (Run.protected n) && bool_decide (n ∉ declared)) current.
Proof.
  intros Hnd current declared.
  eexists _, _, (Run.fields_trace cls current).
  split; [apply (configure_solr_fields_run cls s Hnd)|].
  split; [apply calls_served|].
  assert (∀ name,
    Run.count (Run.is_delete_field name) (Run.fields_trace cls current)
    = length (List.filter (λ n, bool_decide (n = name)) (Run.orphans declared current)))
    as Hcount.
  { intros name. unfold Run.fields_trace.
    change (Solr.ListFields :: ?l) with ([Solr.ListFields] ++ l).
    rewrite !count_app.
    rewrite (count_none _ [_]), (count_none _ (Run.field_call _ _ <$> _)), count_fmap;
      [reflexivity| |].
    - intros c [n [-> _]]%list_elem_of_fmap. unfold Run.field_call.
      by case_bool_decide.
    - by intros c ->%list_elem_of_singleton. }
  split; [|split].
  - intros name Hcur Hdecl Hprot.
    rewrite Hcount, (orphans_occurrences _ _ name Hprot Hdecl). split; [done|].
    intros Hnodup.
    rewrite (filter_once _ _ name Hnodup).
    + by rewrite !bool_decide_eq_true_2.
    + by intros y ?%bool_decide_eq_true.
  - intros name Hname. rewrite Hcount.
    assert (Run.protected name = true) as Hprot.
    { unfold Run.protected. destruct Hname as [->|Hp]; [done|].
      by rewrite Hp, orb_true_r. }
    by rewrite (orphans_protected _ _ name Hprot).
  - subst current declared. set (current := (Solr.fields s).*1).
    unfold Run.fields_stats. rewrite !stats_get_tally, stats_get_empty.
    rewrite !how_many_fmap.
    rewrite (how_many_ext _ (λ _, false) (SolrSchema.get_field_names cls)),
      how_many_false.
    + rewrite (how_many_ext _ (λ _, true) (Run.orphans _ _)) by done.
      rewrite how_many_true. unfold Run.how_many, Run.orphans. lia.
    + intros n _. unfold Run.field_key. by destruct (bool_decide (n ∉ current)).
Qed.

(** ** Field-type reconciliation *)

Lemma by_name_fold_named (listing : list (string * gmap string pyval))
    (m : gmap string (gmap string pyval)) :
  (∀ n d, m !! n = Some d → is_Some (d !! "name")) →
  ∀ n d, foldl (λ m ftype, <[ftype.1 := Solr.as_dict ftype]> m) m listing !! n = Some d →
         is_Some (d !! "name").
Proof.
  revert m. induction listing as [|ft listing IH]; intros m Hm; [exact Hm|].
  simpl. apply IH. intros n d. rewrite lookup_insert. case_decide; [|apply Hm].
  intros [= <-]. unfold Solr.as_dict. rewrite lookup_insert_eq. eauto.
Qed.

Lemma by_name_fold_dom (listing : list (string * gmap string pyval))
    (m : gmap string (gmap string pyval)) (n : string) :
  is_Some (foldl (λ m ftype, <[ftype.1 := Solr.as_dict ftype]> m) m listing !! n)
  ↔ is_Some (m !! n) ∨ n ∈ listing.*1.
Proof.
  revert m. induction listing as [|ft listing IH]; intros m.
  - simpl. rewrite elem_of_nil. tauto.
  - rewrite fmap_cons. simpl. rewrite IH, elem_of_cons, lookup_insert_is_Some.
    destruct (decide (ft.1 = n)) as [<-|Hne]; [by split; auto|].
    split.
    + intros [[?|[_ ?]]|?]; [done|by left|by right; right].
    + intros [?|[?|?]]; [by left; right|congruence|by right].
Qed.

Lemma by_name_named (listing : list (string * gmap string pyval)) (n : string)
    (d : gmap string pyval) :
  SolrSchema.by_name listing !! n = Some d → is_Some (d !! "name").
Proof. apply by_name_fold_named. intros ? ?. by rewrite lookup_empty. Qed.

Lemma by_name_dom (listing : list (string * gmap string pyval)) (n : string) :
  is_Some (SolrSchema.by_name listing !! n) ↔ n ∈ listing.*1.
Proof.
  unfold SolrSchema.by_name. rewrite by_name_fold_dom, lookup_empty.
  split; [intros [[? [=]]|?]; done|by right].
Qed.

Lemma types_step_stats (current names : list string)
    (acc : gmap string Z * gmap string (gmap string pyval)) :
  (foldl (Run.types_step current) acc names).1
  = Run.tally (Run.type_key current <$> names) acc.1.
Proof.
  revert acc. induction names as [|n names IH]; intros acc; [reflexivity|].
  rewrite fmap_cons. simpl. by rewrite IH.
Qed.

Lemma types_body (cls : SolrSchema.t) (current : list string)
    (acc : gmap string Z * gmap string (gmap string pyval))
    (x : string) (rest : list string) (s : Solr.t) :
  Run.types_inv cls current acc (x :: rest) →
  (λ '(stats, current_field_types) field_type,
     field_type_opts ← SolrSchema.getattr cls field_type;
     field_type_opts ← setitem field_type_opts "name" (PStr field_type);
     match current_field_types !! field_type with
     | Some current_field_type_opts =>
         current_field_type_opts ← delitem current_field_type_opts "name";
         let current_field_types :=
           <[field_type := current_field_type_opts]> current_field_types in
         let stats := incr "updated" stats in
         Solr.replace_field_type field_type_opts;;
         mret (stats, current_field_types)
     | None =>
         let stats := incr "added" stats in
         Solr.add_field_type field_type_opts;;
         mret (stats, current_field_types)
     end) acc x s
  = (Ok (Run.types_step current acc x), Solr.serve (Run.type_call cls current x) s)
  ∧ Run.types_inv cls current (Run.types_step current acc x) rest.
Proof.
  destruct acc as [stats cft]. intros (Hnd & Hcls & Hdom & Hnamed).
  apply NoDup_cons in Hnd as [Hx Hnd].
  destruct (Hcls x) as [ft Hft]; [left|].
  split.
  - unfold SolrSchema.getattr, Run.types_step, Run.type_call, Run.type_key,
      Run.declared_opts. rewrite Hft. cbn [fst snd].
    destruct (cft !! x) as [d|] eqn:Hd.
    + destruct (Hnamed x d) as [v Hv]; [left|done|].
      rewrite bool_decide_eq_true_2 by (apply Hdom; cbn [snd]; rewrite Hd; eauto).
      unfold delitem. rewrite Hv. reflexivity.
    + rewrite bool_decide_eq_false_2.
      * reflexivity.
      * intros Hin%Hdom. cbn [snd] in Hin. rewrite Hd in Hin. by destruct Hin.
  - unfold Run.types_inv, Run.types_step. simpl. split; [done|]. split; [|split].
    + intros n Hn. apply Hcls. by right.
    + intros n. rewrite <- Hdom. destruct (cft !! x) as [d|] eqn:Hd; [|done].
      rewrite lookup_insert_is_Some. destruct (decide (x = n)) as [->|Hxn].
      * cbn [snd]. rewrite Hd. split; eauto.
      * split; [by intros [?|[_ ?]]|by right].
    + intros n d Hn. destruct (cft !! x) as [d'|] eqn:Hd.
      * rewrite lookup_insert_ne by (intros ->; done). apply Hnamed. by right.
      * apply Hnamed. by right.
Qed.

Lemma get_field_types_NoDup (cls : SolrSchema.t) :
  NoDup cls.*1 → NoDup (SolrSchema.get_field_types cls).
Proof. apply (filter_fst_NoDup SolrSchema.isinstance_SolrFieldType). Qed.

(** The field-types run, in full, when at least one type is declared. *)
Lemma configure_solr_fieldtypes_run (cls : SolrSchema.t) (s : Solr.t) :
  NoDup cls.*1 →
  SolrSchema.get_field_types cls ≠ [] →
  SolrSchema.configure_solr_fieldtypes cls s =
  (Ok (Run.types_stats cls (Solr.field_types s).*1),
   Run.served (Run.types_trace cls (Solr.field_types s).*1) s).
Proof.
  intros Hnd Hne. unfold SolrSchema.configure_solr_fieldtypes.
  rewrite bool_decide_eq_false_2 by done.
  unfold Solr.list_field_types. rewrite bind_run. simpl.
  set (current := (Solr.field_types s).*1).
  set (s1 := Solr.serve Solr.ListFieldTypes s).
  pose proof (for_each_fold
    _
    (Run.types_step current)
    (λ s n, Solr.serve (Run.type_call cls current n) s)
    (Run.types_inv cls current)
    (λ acc x rest s, types_body cls current acc x rest s)
    (SolrSchema.get_field_types cls)
    (∅, SolrSchema.by_name (Solr.field_types s)) s1) as Hloop.
  assert (Run.types_inv cls current (∅, SolrSchema.by_name (Solr.field_types s))
            (SolrSchema.get_field_types cls)) as Hinv.
  { split; [by apply get_field_types_NoDup|]. split; [|split].
    - intros n Hn.
      destruct (class_lookup_filter SolrSchema.isinstance_SolrFieldType cls n Hnd Hn)
        as [[| ft |] [Ha Hp]]; [done|eauto|done].
    - intros n. apply by_name_dom.
    - intros n d _. apply by_name_named. }
  rewrite (bind_ok _ _ _ _ _ (Hloop Hinv)).
  destruct (foldl _ _ _) as [st cft] eqn:Hfold. simpl.
  unfold Run.types_stats, Run.types_trace, mret, Eff_ret. f_equal.
  - f_equal. change st with (st, cft).1. rewrite <- Hfold.
    by rewrite types_step_stats.
  - unfold Run.served. simpl. by rewrite <- foldl_fmap.
Qed.

Lemma configure_solr_fieldtypes_none (cls : SolrSchema.t) (s : Solr.t) :
  SolrSchema.get_field_types cls = [] →
  SolrSchema.configure_solr_fieldtypes cls s = (Ok ∅, s).
Proof.
  intros Hnone. unfold SolrSchema.configure_solr_fieldtypes.
  by rewrite Hnone.
Qed.

(** ** Samples *)

Lemma sample_schema_NoDup : NoDup Sample.schema.*1.
Proof. apply (bool_decide_unpack _). vm_compute. exact I. Qed.

Lemma configure_solr_fields_add_replace_witness :
  NoDup Sample.schema.*1 ∧
  ("title" ∈ SolrSchema.get_field_names Sample.schema
   ∧ "title" ∉ (Solr.fields Sample.remote).*1) ∧
  ("author" ∈ SolrSchema.get_field_names Sample.schema
   ∧ "author" ∈ (Solr.fields Sample.remote).*1) ∧
  ∃ stats s' issued,
    SolrSchema.configure_solr_fields Sample.schema Sample.remote = (Ok stats, s') ∧
    Solr.calls s' = Solr.calls Sample.remote ++ issued ∧
    (∀ name, name ∈ SolrSchema.get_field_names Sample.schema →
       name ∉ (Solr.fields Sample.remote).*1 →
       Run.count (Run.is_add_field name) issued = 1%nat ∧
       Run.count (Run.is_replace_field name) issued = 0%nat ∧
       Solr.AddField name (Run.declared_opts Sample.schema name) ∈ issued) ∧
    (∀ name, name ∈ SolrSchema.get_field_names Sample.schema →
       name ∈ (Solr.fields Sample.remote).*1 →
       Run.count (Run.is_replace_field name) issued = 1%nat ∧
       Run.count (Run.is_add_field name) issued = 0%nat ∧
       Solr.ReplaceField name (Run.declared_opts Sample.schema name) ∈ issued) ∧
    stats_get stats "added"
    = Run.how_many (λ n, bool_decide (n ∉ (Solr.fields Sample.remote).*1))
        (SolrSchema.get_field_names Sample.schema) ∧
    stats_get stats "replaced"
    = Run.how_many (λ n, bool_decide (n ∈ (Solr.fields Sample.remote).*1))
        (SolrSchema.get_field_names Sample.schema).
Proof.
  assert (NoDup Sample.schema.*1) as Hnd.
  { apply (bool_decide_unpack _). vm_compute. exact I. }
  split; [exact Hnd|].
  split; [split; apply (bool_decide_unpack _); vm_compute; exact I|].
  split; [split; apply (bool_decide_unpack _); vm_compute; exact I|].
  exact (configure_solr_fields_add_replace Sample.schema Sample.remote Hnd).
Defined.

Lemma configure_solr_fields_delete_witness :
  NoDup Sample.schema.*1 ∧
  ("old" ∈ (Solr.fields Sample.remote).*1) ∧
  ("old" ∉ SolrSchema.get_field_names Sample.schema) ∧
  Run.protected "old" = false ∧
  NoDup (Solr.fields Sample.remote).*1 ∧
  String.prefix "_" "_version_" = true ∧
  ∃ stats s' issued,
    SolrSchema.configure_solr_fields Sample.schema Sample.remote = (Ok stats, s') ∧
    Solr.calls s' = Solr.calls Sample.remote ++ issued ∧
    (∀ name, name ∈ (Solr.fields Sample.remote).*1 →
       name ∉ SolrSchema.get_field_names Sample.schema →
       Run.protected name = false →
       Run.count (Run.is_delete_field name) issued
       = length (List.filter (λ n, bool_decide (n = name)) (Solr.fields Sample.remote).*1) ∧
       (NoDup (Solr.fields Sample.remote).*1 →
        Run.count (Run.is_delete_field name) issued = 1%nat)) ∧
    (∀ name, name = "id" ∨ String.prefix "_" name = true →
       Run.count (Run.is_delete_field name) issued = 0%nat) ∧
    stats_get stats "deleted"
    = Run.how_many (λ n, negb (Run.protected n)
                         && bool_decide (n ∉ SolrSchema.get_field_names Sample.schema))
        (Solr.fields Sample.remote).*1.
Proof.
  assert (NoDup Sample.schema.*1) as Hnd.
  { apply (bool_decide_unpack _). vm_compute. exact I. }
  split; [exact Hnd|].
  do 4 (split; [first [reflexivity|apply (bool_decide_unpack _); vm_compute; exact I]|]).
  split; [reflexivity|].
  exact (configure_solr_fields_delete Sample.schema Sample.remote Hnd).
Defined.

(** C3, as stated, fails: on the sample schema, whose field type [text_en]
    the sample remote already lists, the definition passed to
    [replace_field_type] still binds [name]. *)
Lemma replace_field_type_strips_name_counterexample :
  ¬ (∀ kw,
       Solr.ReplaceFieldType kw
         ∈ Solr.calls (SolrSchema.configure_solr_fieldtypes Sample.schema Sample.remote).2 →
       kw !! "name" = None).
Proof.
  intros Hstrip.
  specialize (Hstrip (<["name" := PStr "text_en"]> (Run.declared_opts Sample.schema "text_en"))).
  rewrite (configure_solr_fieldtypes_run _ _ sample_schema_NoDup) in Hstrip by done.
  cbn [snd] in Hstrip. rewrite calls_served in Hstrip.
  rewrite lookup_insert_eq in Hstrip.
  assert (Some (PStr "text_en") = None) as Habs; [|discriminate Habs].
  apply Hstrip. simpl. right. left.
Qed.

(** C3, amended.  For a schema class whose attribute names are distinct,
    [configure_solr_fieldtypes] returns, and for every declared field type
    whose name the remote listing shows, the one [replace_field_type] call
    issued for it passes the declared definition together with its [name]
    key; [stats.updated] is the number of declared field types present
    remotely. *)
Theorem configure_solr_fieldtypes_replace (cls : SolrSchema.t) (s : Solr.t) :
  NoDup cls.*1 →
  let current := (Solr.field_types s).*1 in
  let declared := SolrSchema.get_field_types cls in
  ∃ stats s' issued,
    SolrSchema.configure_solr_fieldtypes cls s = (Ok stats, s') ∧
    Solr.calls s' = Solr.calls s ++ issued ∧
    (∀ name, name ∈ declared → name ∈ current →
       let kw := <["name" := PStr name]> (Run.declared_opts cls name) in
       Solr.ReplaceFieldType kw ∈ issued ∧
       kw !! "name" = Some (PStr name) ∧
       (∀ kw', Solr.ReplaceFieldType kw' ∈ issued →
               kw' !! "name" = Some (PStr name) → kw' = kw)) ∧
    stats_get stats "updated" = Run.how_many (λ n, bool_decide (n ∈ current)) declared.
Proof.
  intros Hnd current declared.
  destruct (decide (declared = [])) as [Hnone|Hsome].
  - exists ∅, s, []. rewrite app_nil_r.
    split; [by apply configure_solr_fieldtypes_none|]. split; [done|].
    rewrite Hnone. split; [|done].
    intros name Hname. by apply elem_of_nil in Hname.
  - eexists _, _, (Run.types_trace cls current).
    split; [by apply configure_solr_fieldtypes_run|].
    split; [apply calls_served|]. split.
    + intros name Hname Hcur kw. split; [|split].
      * unfold Run.types_trace. right. apply list_elem_of_fmap.
        exists name. split; [|done]. unfold Run.type_call.
        by rewrite bool_decide_eq_true_2.
      * apply lookup_insert_eq.
      * intros kw' Hin Hkw'. unfold Run.types_trace in Hin.
        apply elem_of_cons in Hin as [[=]|Hin].
        apply list_elem_of_fmap in Hin as [n [Hcall _]].
        unfold Run.type_call in Hcall. destruct (bool_decide (n ∈ current)); [|done].
        injection Hcall as ->. rewrite lookup_insert_eq in Hkw'.
        by injection Hkw' as ->.
    + clear Hsome. subst current declared. set (current := (Solr.field_types s).*1).
      unfold Run.types_stats. rewrite stats_get_tally, stats_get_empty, how_many_fmap.
      rewrite (how_many_ext _ (λ n, bool_decide (n ∈ current))); [lia|].
      intros n _. unfold Run.type_key. by destruct (bool_decide (n ∈ current)).
Qed.

(** C7.  If the class declares no field type, [configure_solr_fieldtypes]
    returns stats whose every counter reads zero and leaves the remote as it
    was: no call reaches it, the field-type listing included. *)
Theorem configure_solr_fieldtypes_nothing_declared (cls : SolrSchema.t) (s : Solr.t) :
  SolrSchema.get_field_types cls = [] →
  ∃ stats,
    SolrSchema.configure_solr_fieldtypes cls s = (Ok stats, s) ∧
    (∀ key, stats_get stats key = 0) ∧
    Solr.calls (SolrSchema.configure_solr_fieldtypes cls s).2 = Solr.calls s.
Proof.
  intros Hnone. exists ∅.
  rewrite (configure_solr_fieldtypes_none cls s Hnone).
  split; [done|]. split; [apply stats_get_empty|done].
Qed.

Lemma configure_solr_fieldtypes_replace_witness :
  NoDup Sample.schema.*1 ∧
  ("text_en" ∈ SolrSchema.get_field_types Sample.schema) ∧
  ("text_en" ∈ (Solr.field_types Sample.remote).*1) ∧
  ∃ stats s' issued,
    SolrSchema.configure_solr_fieldtypes Sample.schema Sample.remote = (Ok stats, s') ∧
    Solr.calls s' = Solr.calls Sample.remote ++ issued ∧
    (∀ name, name ∈ SolrSchema.get_field_types Sample.schema →
       name ∈ (Solr.field_types Sample.remote).*1 →
       let kw := <["name" := PStr name]> (Run.declared_opts Sample.schema name) in
       Solr.ReplaceFieldType kw ∈ issued ∧
       kw !! "name" = Some (PStr name) ∧
       (∀ kw', Solr.ReplaceFieldType kw' ∈ issued →
               kw' !! "name" = Some (PStr name) → kw' = kw)) ∧
    stats_get stats "updated"
    = Run.how_many (λ n, bool_decide (n ∈ (Solr.field_types Sample.remote).*1))
        (SolrSchema.get_field_types Sample.schema).
Proof.
  assert (NoDup Sample.schema.*1) as Hnd.
  { apply (bool_decide_unpack _). vm_compute. exact I. }
  split; [exact Hnd|].
  do 2 (split; [apply (bool_decide_unpack _); vm_compute; exact I|]).
  exact (configure_solr_fieldtypes_replace Sample.schema Sample.remote Hnd).
Defined.

Lemma configure_solr_fieldtypes_nothing_declared_witness :
  SolrSchema.get_field_types Sample.fields_only = [] ∧
  ∃ stats,
    SolrSchema.configure_solr_fieldtypes Sample.fields_only Sample.remote
    = (Ok stats, Sample.remote) ∧
    (∀ key, stats_get stats key = 0) ∧
    Solr.calls (SolrSchema.configure_solr_fieldtypes Sample.fields_only Sample.remote).2
    = Solr.calls Sample.remote.
Proof.
  split; [reflexivity|].
  apply (configure_solr_fieldtypes_nothing_declared Sample.fields_only Sample.remote).
  reflexivity.
Defined.

(** ** Configuration lookup and descriptors *)

(** C8.  [get_configuration] raises when no subclass is registered and when
    more than one is, and returns the subclass when there is exactly one. *)
Theorem get_configuration_single (subclasses : list SolrSchema.t) :
  (length subclasses = 0%nat →
     ∃ msg, SolrSchema.get_configuration subclasses = Raise (Exception msg)) ∧
  ((1 < length subclasses)%nat →
     ∃ msg, SolrSchema.get_configuration subclasses = Raise (Exception msg)) ∧
  (∀ cls, subclasses = [cls] → SolrSchema.get_configuration subclasses = Ok cls).
Proof.
  unfold SolrSchema.get_configuration. split; [|split].
  - intros Hlen. destruct subclasses; [eauto|discriminate Hlen].
  - intros Hlen. destruct subclasses as [|c l]; [simpl in Hlen; lia|].
    rewrite decide_True by done. eauto.
  - intros cls ->. reflexivity.
Qed.

Lemma get_configuration_single_witness :
  (∃ msg, SolrSchema.get_configuration [] = Raise (Exception msg)) ∧
  (∃ msg, SolrSchema.get_configuration [Sample.schema; Sample.fields_only]
          = Raise (Exception msg)) ∧
  SolrSchema.get_configuration [Sample.schema] = Ok Sample.schema.
Proof.
  split; [|split].
  - apply (proj1 (get_configuration_single [])). reflexivity.
  - apply (proj1 (proj2 (get_configuration_single [Sample.schema; Sample.fields_only]))).
    simpl. lia.
  - apply (proj2 (proj2 (get_configuration_single [Sample.schema]))). reflexivity.
Defined.





(** ** The update handler *)

Lemma fresh_not_allocated (h : gmap Update.loc (gmap string pyval)) (l : Update.loc) :
  l ∈ dom h → l ≠ fresh (dom h).
Proof. intros Hl ->. by apply (is_fresh (dom h)). Qed.

(** [index], step by step: either there is no [commitWithin] to delete and
    it raises with the copy already allocated; or the copy is prepared and
    [urljoin] is called, whose failure is the failure of [index]; or one
    request is handed over, and the transport decides. *)
Lemma index_unfold {E : Update.Externals} (self : Update.t)
    (docs commit commit_within : pyval) (w : Update.world) :
  let stored := Update.heap w !!! Update.params self in
  let l := fresh (dom (Update.heap w)) in
  Update.index self docs commit commit_within w =
  if Trace.nothing_to_delete stored commit commit_within
  then (Raise (KeyError "commitWithin"),
        Update.set_heap (<[l := stored]> (Update.heap w)) w)
  else
    let heap' := <[l := Trace.prepared stored commit commit_within]> (Update.heap w) in
    match Update.urljoin (Update.url self +:+ "/") "json/docs" with
    | Raise e => (Raise e, Update.set_heap heap' w)
    | Ok u =>
        let req := Update.mkRequest "post" u docs
                     (heap' !!! Update.params self) (heap' !!! Update.headers self) in
        (Update.transport (Update.requests w) req,
         {| Update.heap := heap'; Update.requests := Update.requests w ++ [req] |})
    end.
Proof.
  intros stored l.
  unfold Update.index, Update.dict_copy, Update.alloc, Update.load,
    Update.dict_setitem, Update.dict_delitem, Update.make_request, delitem,
    Trace.nothing_to_delete, Trace.prepared,
    mbind, Eff_bind, mret, Eff_ret, mthrow, Eff_throw, gets, modify, lift.
  fold stored. fold l.
  destruct (truthy commit_within), (truthy commit); simpl; fold stored; fold l;
    rewrite ?lookup_total_insert_eq; simpl;
    rewrite ?lookup_insert_eq; simpl;
    repeat (match goal with |- context [match ?d !! "commitWithin" with _ => _ end] =>
              destruct (d !! "commitWithin") end; simpl);
    rewrite ?lookup_total_insert_eq; simpl;
    rewrite ?insert_insert_eq;
    try reflexivity;
    destruct (Update.urljoin (Update.url self +:+ "/") "json/docs"); reflexivity.
Qed.

(** What [index] leaves in the store: the store it found, plus the local
    copy of the parameters at a fresh reference. *)
Lemma index_heap {E : Update.Externals} (self : Update.t)
    (docs commit commit_within : pyval) (w : Update.world) :
  ∃ local,
    Update.heap (Update.index self docs commit commit_within w).2
    = <[fresh (dom (Update.heap w)) := local]> (Update.heap w).
Proof.
  rewrite index_unfold.
  destruct (Trace.nothing_to_delete _ commit commit_within); [by eexists|].
  cbv zeta. destruct (Update.urljoin _ _); by eexists.
Qed.

(** C10.  Whatever [commit] and [commit_within] are, and whether or not the
    call raises, [index] leaves the dictionary stored in [self.params] as it
    was, and so every other dictionary already in the store: what it writes
    goes to a copy at a fresh reference.  The stored parameters are still
    allocated afterwards, so the next call starts from the same defaults. *)
Theorem index_keeps_stored_params {E : Update.Externals} (self : Update.t)
    (docs commit commit_within : pyval) (w : Update.world) :
  Update.params self ∈ dom (Update.heap w) →
  let w' := (Update.index self docs commit commit_within w).2 in
  Update.heap w' !! Update.params self = Update.heap w !! Update.params self ∧
  (∀ l, l ∈ dom (Update.heap w) → Update.heap w' !! l = Update.heap w !! l) ∧
  Update.params self ∈ dom (Update.heap w').
Proof.
  intros Hparams w'.
  destruct (index_heap self docs commit commit_within w) as [local Hheap].
  assert (∀ l, l ∈ dom (Update.heap w) → Update.heap w' !! l = Update.heap w !! l) as Hold.
  { intros l Hl. unfold w'. rewrite Hheap.
    apply lookup_insert_ne. intros Heq. by apply (fresh_not_allocated _ l Hl). }
  split; [by apply Hold|]. split; [exact Hold|].
  apply elem_of_dom. rewrite (Hold _ Hparams). by apply elem_of_dom.
Qed.

Lemma index_keeps_stored_params_witness :
  Update.params Sample.handler ∈ dom (Update.heap Sample.world) ∧
  let w' := (Update.index (E := Sample.externals) Sample.handler (PList []) (PBool true)
               (PInt 5) Sample.world).2 in
  Update.heap w' !! Update.params Sample.handler
  = Update.heap Sample.world !! Update.params Sample.handler ∧
  (∀ l, l ∈ dom (Update.heap Sample.world) →
        Update.heap w' !! l = Update.heap Sample.world !! l) ∧
  Update.params Sample.handler ∈ dom (Update.heap w').
Proof.
  assert (Update.params Sample.handler ∈ dom (Update.heap Sample.world)) as Hin.
  { apply (bool_decide_unpack _). vm_compute. exact I. }
  split; [exact Hin|].
  exact (index_keeps_stored_params (E := Sample.externals) Sample.handler (PList [])
           (PBool true) (PInt 5) Sample.world Hin).
Defined.

Lemma sample_handler_built :
  Update.__init__ Sample.client (PInt 1000) Sample.nothing
  = (Ok Sample.handler, Sample.world).
Proof. vm_compute. reflexivity. Qed.

(** What [index] hands over when it gets as far as the request: the
    dictionary stored in [self.params], not the local copy it prepared. *)
Lemma index_sends_stored_params {E : Update.Externals} (self : Update.t)
    (docs commit commit_within : pyval) (w : Update.world) (u : string) :
  Update.params self ∈ dom (Update.heap w) →
  Update.headers self ∈ dom (Update.heap w) →
  Trace.nothing_to_delete (Update.heap w !!! Update.params self) commit commit_within
  = false →
  Update.urljoin (Update.url self +:+ "/") "json/docs" = Ok u →
  Update.requests (Update.index self docs commit commit_within w).2
  = Update.requests w
    ++ [Update.mkRequest "post" u docs
          (Update.heap w !!! Update.params self)
          (Update.heap w !!! Update.headers self)].
Proof.
  intros Hp%fresh_not_allocated Hh%fresh_not_allocated Hdel Hjoin.
  rewrite index_unfold, Hdel. cbv zeta. rewrite Hjoin. cbn [snd Update.requests].
  by rewrite !lookup_total_insert_ne.
Qed.

(** C4 fails on the code.  The handler built with [commitWithin = 1000] is
    asked to index with [commit=True].  Whatever [urljoin] answers at the
    handler's base when it returns, and whatever the transport does with the
    request, the one request handed over carries [commitWithin] and carries
    no [commit], while the local copy that was prepared holds [commit]
    alone. *)
Theorem index_commit_sends_commit_within {E : Update.Externals} (u : string) :
  Update.urljoin "http://localhost:8983/solr/core/update/" "json/docs" = Ok u →
  let w' := (Update.index Sample.handler (PList []) (PBool true) PNone Sample.world).2 in
  ∃ req,
    Update.requests w' = [req] ∧
    Update.req_url req = u ∧
    Update.req_params req !! "commitWithin" = Some (PInt 1000) ∧
    Update.req_params req !! "commit" = None ∧
    Update.heap w' !! 3%positive = Some {[ "commit" := PBool true ]}.
Proof.
  intros Hjoin w'. unfold w'. rewrite index_unfold.
  change (Update.url Sample.handler +:+ "/")
    with "http://localhost:8983/solr/core/update/".
  assert (Trace.nothing_to_delete
            (Update.heap Sample.world !!! Update.params Sample.handler)
            (PBool true) PNone = false) as -> by (vm_compute; reflexivity).
  cbv zeta. rewrite Hjoin. cbn [snd Update.requests Update.heap].
  eexists. split; [reflexivity|]. cbn [Update.req_url Update.req_params].
  split; [reflexivity|].
  split; [vm_compute; reflexivity|]. split; vm_compute; reflexivity.
Qed.

Lemma index_commit_sends_commit_within_witness :
  Update.urljoin (Externals := Sample.externals)
    "http://localhost:8983/solr/core/update/" "json/docs"
  = Ok "http://localhost:8983/solr/core/update/json/docs" ∧
  let w' := (Update.index (E := Sample.externals) Sample.handler (PList []) (PBool true)
               PNone Sample.world).2 in
  ∃ req,
    Update.requests w' = [req] ∧
    Update.req_url req = "http://localhost:8983/solr/core/update/json/docs" ∧
    Update.req_params req !! "commitWithin" = Some (PInt 1000) ∧
    Update.req_params req !! "commit" = None ∧
    Update.heap w' !! 3%positive = Some {[ "commit" := PBool true ]}.
Proof.
  split; [reflexivity|].
  exact (index_commit_sends_commit_within (E := Sample.externals) _ eq_refl).
Defined.

(** ** Bulk indexing *)

Lemma chunked_concat {A} (c : nat) (items : list A) :
  (0 < c)%nat → concat (Indexable.chunked c items) = items.
Proof.
  intros Hc. funelim (Indexable.chunked c items); simp chunked; [done|lia|].
  simpl. rewrite H by lia. by rewrite take_drop.
Qed.

Lemma chunked_bounded {A} (c : nat) (items : list A) :
  Forall (λ chunk, (0 < length chunk ≤ c)%nat) (Indexable.chunked c items).
Proof.
  funelim (Indexable.chunked c items); simp chunked; [constructor..|].
  constructor; [|done]. simpl. rewrite length_take. lia.
Qed.

Lemma chunked_length {A} (c : nat) (items : list A) :
  (0 < c)%nat →
  length (Indexable.chunked c items) = ((length items + c - 1) / c)%nat.
Proof.
  intros Hc. funelim (Indexable.chunked c items); simp chunked.
  - simpl. symmetry. apply Nat.div_small. lia.
  - lia.
  - cbn [length]. rewrite H by lia. rewrite length_drop.
    replace (length rest - c + S c - 1)%nat with (Nat.max (length rest) c) by lia.
    replace (S (length rest) + S c - 1)%nat with (length rest + 1 * S c)%nat by lia.
    rewrite Nat.div_add by lia.
    destruct (Nat.le_gt_cases c (length rest)) as [Hle|Hgt].
    + rewrite Nat.max_l by done. lia.
    + rewrite Nat.max_r by lia. rewrite !Nat.div_small by lia. lia.
Qed.

(** The events one chunk gives rise to. *)
Lemma index_items_run `{Indexable.Record_ A} (chunks : list (list A)) (progbar : bool)
    (count : Z) (evs : list Indexable.event) :
  for_each chunks count (λ count chunk,
      Indexable.emit (Indexable.IndexDocs (Indexable.index_data <$> chunk));;
      (if progbar then Indexable.emit Indexable.ProgressUpdate else mret ());;
      mret (count + Z.of_nat (length chunk))) evs
  = (Ok (count + Z.of_nat (length (concat chunks))),
     evs ++ (chunks ≫= λ chunk,
               Indexable.IndexDocs (Indexable.index_data <$> chunk)
               :: if progbar then [Indexable.ProgressUpdate] else [])).
Proof.
  revert count evs. induction chunks as [|chunk chunks IH]; intros count evs.
  - simpl. rewrite app_nil_r. unfold mret, Eff_ret. do 2 f_equal. lia.
  - cbn [for_each]. rewrite bind_run.
    assert ((Indexable.emit (Indexable.IndexDocs (Indexable.index_data <$> chunk));;
             (if progbar then Indexable.emit Indexable.ProgressUpdate else mret ());;
             mret (count + Z.of_nat (length chunk))) evs
            = (Ok (count + Z.of_nat (length chunk)),
               evs ++ Indexable.IndexDocs (Indexable.index_data <$> chunk)
                   :: if progbar then [Indexable.ProgressUpdate] else [])) as ->.
    { destruct progbar; unfold Indexable.emit, modify, mbind, Eff_bind, mret, Eff_ret;
        simpl; [by rewrite <- app_assoc|done]. }
    rewrite IH. f_equal.
    + f_equal. simpl. rewrite length_app. lia.
    + rewrite bind_cons. by rewrite <- app_assoc.
Qed.

Lemma submissions_chunks `{Indexable.Record_ A} (chunks : list (list A)) (progbar : bool) :
  Indexable.submissions
    (chunks ≫= λ chunk : list A,
       Indexable.IndexDocs (Indexable.index_data <$> chunk)
       :: if progbar then [Indexable.ProgressUpdate] else [])
  = (λ chunk : list A, Indexable.index_data <$> chunk) <$> chunks.
Proof.
  unfold Indexable.submissions.
  induction chunks as [|chunk chunks IH]; [reflexivity|].
  rewrite bind_cons, fmap_cons, omap_app, IH. by destruct progbar.
Qed.

Lemma progress_updates_chunks `{Indexable.Record_ A} (chunks : list (list A))
    (progbar : bool) :
  Indexable.progress_updates
    (chunks ≫= λ chunk : list A,
       Indexable.IndexDocs (Indexable.index_data <$> chunk)
       :: if progbar then [Indexable.ProgressUpdate] else [])
  = if progbar then length chunks else 0%nat.
Proof.
  unfold Indexable.progress_updates.
  induction chunks as [|chunk chunks IH]; [by destruct progbar|].
  rewrite bind_cons, List.filter_app, length_app, IH. by destruct progbar.
Qed.

(** C5.  For [n] records and a positive chunk size [c], [index_items]
    returns [n]; the batches it submitted are [ceil(n/c)] in number, none
    is empty or longer than [c], and laid end to end they are the
    [index_data] of the records in stream order; a supplied progress sink
    received one update per batch, and no sink means no update. *)
Theorem index_items_chunked `{Indexable.Record_ A} (items : list A) (c : nat)
    (progbar : bool) (evs : list Indexable.event) :
  (0 < c)%nat →
  let n := length items in
  ∃ new,
    Indexable.index_items items c progbar evs = (Ok (Z.of_nat n), evs ++ new) ∧
    length (Indexable.submissions new) = ((n + c - 1) / c)%nat ∧
    Forall (λ docs, (0 < length docs ≤ c)%nat) (Indexable.submissions new) ∧
    concat (Indexable.submissions new) = Indexable.index_data <$> items ∧
    Indexable.progress_updates new
    = if progbar then length (Indexable.submissions new) else 0%nat.
Proof.
  intros Hc n. eexists. unfold Indexable.index_items.
  split; [|split; [|split; [|split]]].
  - rewrite index_items_run, chunked_concat by done. reflexivity.
  - by rewrite submissions_chunks, length_fmap, chunked_length.
  - rewrite submissions_chunks. apply Forall_fmap.
    eapply Forall_impl; [apply chunked_bounded|].
    intros chunk. simpl. by rewrite length_fmap.
  - rewrite submissions_chunks.
    rewrite <- (chunked_concat c items Hc) at 2.
    generalize (Indexable.chunked c items). intros chunks.
    induction chunks as [|chunk chunks IH]; [reflexivity|].
    rewrite fmap_cons. simpl. by rewrite fmap_app, IH.
  - by rewrite progress_updates_chunks, submissions_chunks, length_fmap.
Qed.

Lemma index_items_chunked_witness :
  (0 < 6)%nat ∧
  ∃ new,
    Indexable.index_items Sample.ten 6 true [] = (Ok (Z.of_nat (length Sample.ten)), [] ++ new) ∧
    length (Indexable.submissions new) = ((length Sample.ten + 6 - 1) / 6)%nat ∧
    Forall (λ docs, (0 < length docs ≤ 6)%nat) (Indexable.submissions new) ∧
    concat (Indexable.submissions new) = Indexable.index_data <$> Sample.ten ∧
    Indexable.progress_updates new
    = if true then length (Indexable.submissions new) else 0%nat.
Proof.
  split; [lia|]. apply (index_items_chunked Sample.ten 6 true []). lia.
Defined.

(** The example of the tests: ten records in chunks of six go out as a
    batch of six and a batch of four, with two progress updates. *)
Example index_items_ten_by_six :
  let run := Indexable.index_items Sample.ten 6 true [] in
  run.1 = Ok 10 ∧
  length <$> Indexable.submissions run.2 = [6%nat; 4%nat] ∧
  Indexable.progress_updates run.2 = 2%nat.
Proof. vm_compute. done. Qed.

(** ** Running a reconciliation again *)

Lemma fields_served (cs : list Solr.call) (s : Solr.t) :
  Solr.fields (Run.served cs s)
  = foldl (λ fs c, Solr.field_effect c fs) (Solr.fields s) cs.
Proof.
  revert s. induction cs as [|c cs IH]; intros s; [reflexivity|].
  change (Run.served (c :: cs) s) with (Run.served cs (Solr.serve c s)).
  by rewrite IH.
Qed.

Lemma field_types_served (cs : list Solr.call) (s : Solr.t) :
  Solr.field_types (Run.served cs s)
  = foldl (λ fts c, Solr.type_effect c fts) (Solr.field_types s) cs.
Proof.
  revert s. induction cs as [|c cs IH]; intros s; [reflexivity|].
  change (Run.served (c :: cs) s) with (Run.served cs (Solr.serve c s)).
  by rewrite IH.
Qed.

Lemma overwrite_names (n : string) (d : gmap string pyval)
    (l : list (string * gmap string pyval)) :
  (Solr.overwrite n d l).*1 = l.*1.
Proof.
  unfold Solr.overwrite. induction l as [|e l IH]; [reflexivity|].
  rewrite !fmap_cons, IH. by case_decide; subst.
Qed.

Lemma overwrite_same (n : string) (d : gmap string pyval)
    (l : list (string * gmap string pyval)) :
  (∀ d', (n, d') ∈ l → d' = d) → Solr.overwrite n d l = l.
Proof.
  unfold Solr.overwrite. induction l as [|[k d'] l IH]; intros Hl; [reflexivity|].
  rewrite fmap_cons, IH by (intros d'' Hin; apply Hl; by right).
  simpl. case_decide; [|done]. subst k. rewrite (Hl d') by left. done.
Qed.

Lemma elem_of_overwrite (n : string) (d : gmap string pyval)
    (l : list (string * gmap string pyval)) (e : string * gmap string pyval) :
  e ∈ Solr.overwrite n d l → e = (n, d) ∨ (e ∈ l ∧ e.1 ≠ n).
Proof.
  unfold Solr.overwrite. intros [e' [-> He']]%list_elem_of_fmap.
  case_decide; [by left|by right].
Qed.

Lemma upsert_fold_names (current : list string) (def : string → gmap string pyval)
    (names : list string) (l : list (string * gmap string pyval)) :
  (foldl (Run.upsert current def) l names).*1
  = l.*1 ++ List.filter (λ n, bool_decide (n ∉ current)) names.
Proof.
  revert l. induction names as [|x names IH]; intros l; simpl.
  - by rewrite app_nil_r.
  - rewrite IH. unfold Run.upsert. destruct (decide (x ∈ current)) as [Hx|Hx].
    + rewrite (bool_decide_eq_true_2 _ Hx), overwrite_names.
      by rewrite (bool_decide_eq_false_2 (x ∉ current)) by (intros H; by apply H).
    + rewrite (bool_decide_eq_false_2 _ Hx), (bool_decide_eq_true_2 (x ∉ current)) by done.
      rewrite fmap_app. simpl. by rewrite <- app_assoc.
Qed.

(** Once the declared names went through, whatever the remote holds under
    one of them is what was declared. *)
Lemma upsert_fold_defs (current : list string) (def : string → gmap string pyval)
    (names : list string) (l : list (string * gmap string pyval)) :
  (∀ n, n ∈ l.*1 → n ∈ current) →
  ∀ n d, (n, d) ∈ foldl (Run.upsert current def) l names → n ∈ names → d = def n.
Proof.
  intros Hl.
  cut (∀ done_ l,
         (∀ n, n ∈ l.*1 → n ∈ current ∨ n ∈ done_) →
         (∀ n d, (n, d) ∈ l → n ∈ done_ → d = def n) →
         ∀ n d, (n, d) ∈ foldl (Run.upsert current def) l names →
                n ∈ done_ ++ names → d = def n).
  { intros Hcut n d Hin Hn. apply (Hcut [] l); [auto| |done|done].
    intros ? ? _ Habs. by apply elem_of_nil in Habs. }
  clear l Hl. induction names as [|x names IH]; intros done_ l Hdom Hdefs n d Hin Hn.
  - rewrite app_nil_r in Hn. by apply Hdefs.
  - simpl in Hin. apply (IH (done_ ++ [x]) (Run.upsert current def l x)).
    + intros m. unfold Run.upsert. case_bool_decide as Hx.
      * rewrite overwrite_names. intros [?|?]%Hdom; [by left|right].
        apply elem_of_app. by left.
      * rewrite fmap_app, elem_of_app. simpl. rewrite list_elem_of_singleton.
        intros [[?|?]%Hdom| ->]; [by left|right; apply elem_of_app; by left|].
        right. apply elem_of_app. right. by left.
    + intros m dm. unfold Run.upsert. case_bool_decide as Hx.
      * intros [Heq|[Hm Hne]]%elem_of_overwrite; [by injection Heq as -> ->|].
        simpl in Hne. rewrite elem_of_app, list_elem_of_singleton.
        intros [?|?]; [by apply Hdefs|done].
      * rewrite !elem_of_app, !list_elem_of_singleton.
        intros [Hm|Heq]; [|by injection Heq as -> ->].
        intros [?| ->]; [by apply Hdefs|].
        destruct (Hdom x) as [?|?]; [|done|by apply Hdefs].
        apply list_elem_of_fmap. by exists (x, dm).
    + done.
    + by rewrite <- app_assoc.
Qed.

Lemma upsert_fold_same (current : list string) (def : string → gmap string pyval)
    (names : list string) (l : list (string * gmap string pyval)) :
  (∀ n, n ∈ names → n ∈ current) →
  (∀ n d, (n, d) ∈ l → n ∈ names → d = def n) →
  foldl (Run.upsert current def) l names = l.
Proof.
  intros Hcur Hdefs.
  cut (∀ names', (∀ n, n ∈ names' → n ∈ names) →
                 foldl (Run.upsert current def) l names' = l); [by eauto|].
  induction names' as [|x names' IH]; intros Hsub; [reflexivity|].
  simpl. unfold Run.upsert at 2.
  rewrite bool_decide_eq_true_2 by (apply Hcur, Hsub; left).
  rewrite overwrite_same.
  - apply IH. intros n Hn. apply Hsub. by right.
  - intros d Hd. apply Hdefs; [done|]. apply Hsub. left.
Qed.

Lemma remove_fold (names : list string) (l : list (string * gmap string pyval)) :
  foldl (λ fs n, Solr.remove n fs) l names
  = List.filter (λ e, bool_decide (e.1 ∉ names)) l.
Proof.
  revert l. induction names as [|x names IH]; intros l; cbn [foldl].
  - induction l as [|e l IHl]; [reflexivity|]. cbn [List.filter].
    rewrite bool_decide_eq_true_2 by apply not_elem_of_nil. by f_equal.
  - rewrite IH. unfold Solr.remove. clear IH.
    induction l as [|e l IHl]; [reflexivity|]. cbn [List.filter].
    destruct (decide (e.1 = x)) as [He|He].
    + rewrite (bool_decide_eq_true_2 _ He). cbn [negb].
      rewrite (bool_decide_eq_false_2 (e.1 ∉ x :: names)); [done|].
      intros Hn. apply Hn. rewrite He. left.
    + rewrite (bool_decide_eq_false_2 _ He). cbn [negb List.filter]. rewrite IHl.
      rewrite (bool_decide_ext (e.1 ∉ names) (e.1 ∉ x :: names)); [done|].
      rewrite not_elem_of_cons. tauto.
Qed.

Lemma field_call_effect (cls : SolrSchema.t) (current : list string) (x : string)
    (l : list (string * gmap string pyval)) :
  Solr.field_effect (Run.field_call cls current x) l
  = Run.upsert current (Run.declared_opts cls) l x.
Proof.
  unfold Run.field_call, Run.upsert. destruct (decide (x ∈ current)) as [Hx|Hx].
  - rewrite (bool_decide_eq_true_2 _ Hx).
    by rewrite (bool_decide_eq_false_2 (x ∉ current)) by (intros H; by apply H).
  - by rewrite (bool_decide_eq_false_2 _ Hx), (bool_decide_eq_true_2 (x ∉ current)).
Qed.

Lemma type_call_effect (cls : SolrSchema.t) (current : list string) (x : string)
    (l : list (string * gmap string pyval)) :
  Solr.type_effect (Run.type_call cls current x) l
  = Run.upsert current (Run.type_def cls) l x.
Proof.
  unfold Run.type_call, Run.upsert, Run.type_def.
  destruct (bool_decide (x ∈ current)); simpl; by rewrite lookup_insert_eq.
Qed.

(** The remote field definitions a fields run leaves behind. *)
Lemma fields_trace_effect (cls : SolrSchema.t) (current : list string) (s : Solr.t) :
  Solr.fields (Run.served (Run.fields_trace cls current) s)
  = List.filter
      (λ e, bool_decide (e.1 ∉ Run.orphans (SolrSchema.get_field_names cls) current))
      (foldl (Run.upsert current (Run.declared_opts cls)) (Solr.fields s)
         (SolrSchema.get_field_names cls)).
Proof.
  rewrite fields_served. unfold Run.fields_trace. simpl.
  rewrite foldl_app, <- !foldl_fmap. simpl. rewrite remove_fold. f_equal.
  generalize (Solr.fields s). induction (SolrSchema.get_field_names cls) as [|x l IH];
    intros fs; [reflexivity|].
  simpl. by rewrite field_call_effect, IH.
Qed.

(** The remote field-type definitions a field-types run leaves behind. *)
Lemma types_trace_effect (cls : SolrSchema.t) (current : list string) (s : Solr.t) :
  Solr.field_types (Run.served (Run.types_trace cls current) s)
  = foldl (Run.upsert current (Run.type_def cls)) (Solr.field_types s)
      (SolrSchema.get_field_types cls).
Proof.
  rewrite field_types_served. unfold Run.types_trace. simpl.
  rewrite <- foldl_fmap.
  generalize (Solr.field_types s). induction (SolrSchema.get_field_types cls) as [|x l IH];
    intros fs; [reflexivity|].
  simpl. by rewrite type_call_effect, IH.
Qed.

Lemma orphans_undeclared (configured current : list string) (n : string) :
  n ∈ Run.orphans configured current →
  n ∈ current ∧ (n ∉ configured) ∧ Run.protected n = false.
Proof.
  unfold Run.orphans. intros [Hn Hp]%list_elem_of_In%filter_In.
  apply andb_true_iff in Hp as [Hp Hc]. apply bool_decide_eq_true in Hc.
  split; [by apply list_elem_of_In|]. split; [done|]. by destruct (Run.protected n).
Qed.

Lemma orphans_nil (configured current : list string) :
  (∀ n, n ∈ current → n ∉ configured → Run.protected n = false → False) →
  Run.orphans configured current = [].
Proof.
  unfold Run.orphans. induction current as [|x l IH]; intros Hnone; [reflexivity|].
  simpl. destruct (Run.protected x) eqn:Hp; simpl.
  - apply IH. intros n Hn. apply Hnone. by right.
  - destruct (decide (x ∈ configured)) as [Hx|Hx].
    + rewrite bool_decide_eq_false_2 by (intros H; by apply H).
      apply IH. intros n Hn. apply Hnone. by right.
    + exfalso. apply (Hnone x); [left|done|done].
Qed.

(** A fields run over a remote that a fields run left behind: every
    declared name is listed, nothing is left to delete, and the definitions
    stay as they are. *)
Lemma fields_again (cls : SolrSchema.t) (s : Solr.t) :
  NoDup cls.*1 →
  let declared := SolrSchema.get_field_names cls in
  let s1 := Run.served (Run.fields_trace cls (Solr.fields s).*1) s in
  let current1 := (Solr.fields s1).*1 in
  (∀ n, n ∈ declared → n ∈ current1) ∧
  Run.orphans declared current1 = [] ∧
  Solr.fields (Run.served (Run.fields_trace cls current1) s1) = Solr.fields s1.
Proof.
  intros Hnd declared s1 current1.
  set (current := (Solr.fields s).*1).
  set (l1 := foldl (Run.upsert current (Run.declared_opts cls)) (Solr.fields s) declared).
  assert (Solr.fields s1
          = List.filter (λ e, bool_decide (e.1 ∉ Run.orphans declared current)) l1) as Hs1.
  { apply fields_trace_effect. }
  assert (∀ n, n ∈ current1 ↔ n ∈ l1.*1 ∧ n ∉ Run.orphans declared current) as Hcur1.
  { intros n. unfold current1. rewrite Hs1. split.
    - intros [e [-> He]]%list_elem_of_fmap.
      apply list_elem_of_In, filter_In in He as [He Hk].
      apply bool_decide_eq_true in Hk. split; [|done].
      apply list_elem_of_fmap. exists e. split; [done|]. by apply list_elem_of_In.
    - intros [[e [-> He]]%list_elem_of_fmap Hk].
      apply list_elem_of_fmap. exists e. split; [done|].
      apply list_elem_of_In, filter_In. split; [by apply list_elem_of_In|].
      by apply bool_decide_eq_true. }
  assert (l1.*1 = current ++ List.filter (λ n, bool_decide (n ∉ current)) declared) as Hl1.
  { apply upsert_fold_names. }
  assert (∀ n, n ∈ declared → n ∈ current1) as Hall.
  { intros n Hn. apply Hcur1. split.
    - rewrite Hl1. apply elem_of_app.
      destruct (decide (n ∈ current)) as [?|Hc]; [by left|right].
      apply list_elem_of_In, filter_In. split; [by apply list_elem_of_In|].
      by apply bool_decide_eq_true.
    - intros [_ [Hun _]]%orphans_undeclared. by apply Hun. }
  assert (Run.orphans declared current1 = []) as Hnone.
  { apply orphans_nil. intros n [Hn Hkept]%Hcur1 Hun Hp. apply Hkept.
    unfold Run.orphans. apply list_elem_of_In, filter_In.
    rewrite Hl1 in Hn. apply elem_of_app in Hn as [Hn|Hn].
    - split; [by apply list_elem_of_In|]. rewrite Hp. simpl.
      by apply bool_decide_eq_true.
    - apply list_elem_of_In, filter_In in Hn as [Hn _].
      by apply list_elem_of_In in Hn. }
  split; [exact Hall|]. split; [exact Hnone|].
  rewrite fields_trace_effect. fold declared. rewrite Hnone.
  rewrite (List.filter_ext _ (λ _, true)), filter_true
    by (intros e; by rewrite bool_decide_eq_true_2 by apply not_elem_of_nil).
  apply upsert_fold_same; [exact Hall|].
  intros n d Hin Hn. rewrite Hs1 in Hin.
  apply list_elem_of_In, filter_In in Hin as [Hin _]. apply list_elem_of_In in Hin.
  apply (upsert_fold_defs current (Run.declared_opts cls) declared (Solr.fields s));
    [done|exact Hin|exact Hn].
Qed.

(** The same for field types. *)
Lemma fieldtypes_again (cls : SolrSchema.t) (s : Solr.t) :
  let declared := SolrSchema.get_field_types cls in
  let s1 := Run.served (Run.types_trace cls (Solr.field_types s).*1) s in
  let current1 := (Solr.field_types s1).*1 in
  (∀ n, n ∈ declared → n ∈ current1) ∧
  Solr.field_types (Run.served (Run.types_trace cls current1) s1) = Solr.field_types s1.
Proof.
  intros declared s1 current1.
  set (current := (Solr.field_types s).*1).
  assert (Solr.field_types s1
          = foldl (Run.upsert current (Run.type_def cls)) (Solr.field_types s) declared)
    as Hs1.
  { apply types_trace_effect. }
  assert (∀ n, n ∈ declared → n ∈ current1) as Hall.
  { intros n Hn. unfold current1. rewrite Hs1, upsert_fold_names. apply elem_of_app.
    destruct (decide (n ∈ current)) as [?|Hc]; [by left|right].
    apply list_elem_of_In, filter_In. split; [by apply list_elem_of_In|].
    by apply bool_decide_eq_true. }
  split; [exact Hall|].
  rewrite types_trace_effect. fold declared.
  apply upsert_fold_same; [exact Hall|].
  intros n d Hin Hn. rewrite Hs1 in Hin.
  by apply (upsert_fold_defs current (Run.type_def cls) declared (Solr.field_types s)).
Qed.

Lemma field_key_listed (current names : list string) :
  (∀ n, n ∈ names → n ∈ current) →
  Run.field_key current <$> names = (λ _, "replaced") <$> names.
Proof.
  intros Hall. apply list_fmap_ext. intros i n Hn%list_elem_of_lookup_2.
  unfold Run.field_key. rewrite bool_decide_eq_false_2; [done|].
  intros Hnot. by apply Hnot, Hall.
Qed.

Lemma type_key_listed (current names : list string) :
  (∀ n, n ∈ names → n ∈ current) →
  Run.type_key current <$> names = (λ _, "updated") <$> names.
Proof.
  intros Hall. apply list_fmap_ext. intros i n Hn%list_elem_of_lookup_2.
  unfold Run.type_key. by rewrite bool_decide_eq_true_2 by by apply Hall.
Qed.

Lemma stats_get_tally_const (names : list string) (k key : string) :
  stats_get (Run.tally ((λ _, k) <$> names) ∅) key
  = if bool_decide (k = key) then Z.of_nat (length names) else 0.
Proof.
  rewrite stats_get_tally, stats_get_empty, how_many_fmap.
  case_bool_decide as Hk.
  - rewrite how_many_true. lia.
  - rewrite how_many_false. lia.
Qed.

(** C6, as stated, fails.  Against the sample remote, which lacks the
    declared field [title], the first fields run adds and the second, seeing
    what the first left, only replaces; against the blank remote the first
    field-types run adds [text_en] and the second updates it. *)
Lemma reconcile_twice_equal_stats_counterexample :
  (let run1 := SolrSchema.configure_solr_fields Sample.schema Sample.remote in
   let run2 := SolrSchema.configure_solr_fields Sample.schema run1.2 in
   ∃ stats1 stats2,
     run1.1 = Ok stats1 ∧ run2.1 = Ok stats2 ∧
     stats_get stats1 "added" = 1 ∧ stats_get stats2 "added" = 0 ∧
     stats_get stats1 "added" ≠ stats_get stats2 "added") ∧
  (let run1 := SolrSchema.configure_solr_fieldtypes Sample.schema Sample.blank in
   let run2 := SolrSchema.configure_solr_fieldtypes Sample.schema run1.2 in
   ∃ stats1 stats2,
     run1.1 = Ok stats1 ∧ run2.1 = Ok stats2 ∧
     stats_get stats1 "added" = 1 ∧ stats_get stats2 "added" = 0 ∧
     stats_get stats1 "added" ≠ stats_get stats2 "added").
Proof.
  split; eexists _, _; (split; [vm_compute; reflexivity|]);
    (split; [vm_compute; reflexivity|]); vm_compute; done.
Qed.

(** C6, amended.  With nothing but the runs themselves touching the remote,
    the second fields run reports no add and no delete and one replace per
    declared field, and leaves the remote field definitions as the first
    run left them; its stats equal those of the first run whenever the
    first run had nothing to add or delete.  Likewise the second
    field-types run reports no add and one update per declared field type
    and leaves the remote field types as the first run left them; its stats
    equal those of the first run whenever every declared field type was
    already listed. *)
Theorem reconcile_twice (cls : SolrSchema.t) (s : Solr.t) :
  NoDup cls.*1 →
  (∃ stats1 s1 stats2 s2,
     SolrSchema.configure_solr_fields cls s = (Ok stats1, s1) ∧
     SolrSchema.configure_solr_fields cls s1 = (Ok stats2, s2) ∧
     stats_get stats2 "added" = 0 ∧
     stats_get stats2 "deleted" = 0 ∧
     stats_get stats2 "replaced" = Z.of_nat (length (SolrSchema.get_field_names cls)) ∧
     ((∀ n, n ∈ SolrSchema.get_field_names cls → n ∈ (Solr.fields s).*1) →
      Run.orphans (SolrSchema.get_field_names cls) (Solr.fields s).*1 = [] →
      ∀ key, stats_get stats1 key = stats_get stats2 key) ∧
     Solr.fields s2 = Solr.fields s1) ∧
  (∃ stats1 s1 stats2 s2,
     SolrSchema.configure_solr_fieldtypes cls s = (Ok stats1, s1) ∧
     SolrSchema.configure_solr_fieldtypes cls s1 = (Ok stats2, s2) ∧
     stats_get stats2 "added" = 0 ∧
     stats_get stats2 "updated" = Z.of_nat (length (SolrSchema.get_field_types cls)) ∧
     ((∀ n, n ∈ SolrSchema.get_field_types cls → n ∈ (Solr.field_types s).*1) →
      ∀ key, stats_get stats1 key = stats_get stats2 key) ∧
     Solr.field_types s2 = Solr.field_types s1).
Proof.
  intros Hnd. split.
  - destruct (fields_again cls s Hnd) as (Hall & Hnone & Hsame).
    set (declared := SolrSchema.get_field_names cls) in *.
    set (current := (Solr.fields s).*1) in *.
    set (s1 := Run.served (Run.fields_trace cls current) s) in *.
    set (current1 := (Solr.fields s1).*1) in *.
    exists (Run.fields_stats cls current), s1,
           (Run.fields_stats cls current1), (Run.served (Run.fields_trace cls current1) s1).
    split; [by apply configure_solr_fields_run|].
    split; [by apply configure_solr_fields_run|].
    assert (Run.fields_stats cls current1
            = Run.tally ((λ _, "replaced") <$> declared) ∅) as Hstats.
    { unfold Run.fields_stats. fold declared. rewrite Hnone.
      by rewrite (field_key_listed current1 declared Hall). }
    rewrite Hstats, !stats_get_tally_const.
    split; [done|]. split; [done|]. split; [done|]. split; [|exact Hsame].
    intros Hlisted Horph key. rewrite <- Hstats.
    unfold Run.fields_stats. fold declared. rewrite Horph, Hnone.
    by rewrite (field_key_listed current declared Hlisted),
               (field_key_listed current1 declared Hall).
  - destruct (decide (SolrSchema.get_field_types cls = [])) as [Hnone|Hsome].
    + exists ∅, s, ∅, s. rewrite !(configure_solr_fieldtypes_none cls s Hnone), Hnone.
      rewrite stats_get_empty. done.
    + destruct (fieldtypes_again cls s) as (Hall & Hsame).
      set (declared := SolrSchema.get_field_types cls) in *.
      set (current := (Solr.field_types s).*1) in *.
      set (s1 := Run.served (Run.types_trace cls current) s) in *.
      set (current1 := (Solr.field_types s1).*1) in *.
      exists (Run.types_stats cls current), s1,
             (Run.types_stats cls current1), (Run.served (Run.types_trace cls current1) s1).
      split; [by apply configure_solr_fieldtypes_run|].
      split; [by apply configure_solr_fieldtypes_run|].
      assert (Run.types_stats cls current1
              = Run.tally ((λ _, "updated") <$> declared) ∅) as Hstats.
      { unfold Run.types_stats. fold declared.
        by rewrite (type_key_listed current1 declared Hall). }
      rewrite Hstats, !stats_get_tally_const.
      split; [done|]. split; [done|]. split; [|exact Hsame].
      intros Hlisted key. rewrite <- Hstats.
      unfold Run.types_stats. fold declared.
      by rewrite (type_key_listed current declared Hlisted),
                 (type_key_listed current1 declared Hall).
Qed.

Lemma reconcile_twice_witness :
  NoDup Sample.schema.*1 ∧
  (∀ n, n ∈ SolrSchema.get_field_names Sample.schema → n ∈ (Solr.fields Sample.settled).*1) ∧
  Run.orphans (SolrSchema.get_field_names Sample.schema) (Solr.fields Sample.settled).*1 = [] ∧
  (∀ n, n ∈ SolrSchema.get_field_types Sample.schema →
        n ∈ (Solr.field_types Sample.settled).*1) ∧
  (∃ stats1 s1 stats2 s2,
     SolrSchema.configure_solr_fields Sample.schema Sample.settled = (Ok stats1, s1) ∧
     SolrSchema.configure_solr_fields Sample.schema s1 = (Ok stats2, s2) ∧
     stats_get stats2 "added" = 0 ∧
     stats_get stats2 "deleted" = 0 ∧
     stats_get stats2 "replaced"
     = Z.of_nat (length (SolrSchema.get_field_names Sample.schema)) ∧
     ((∀ n, n ∈ SolrSchema.get_field_names Sample.schema →
            n ∈ (Solr.fields Sample.settled).*1) →
      Run.orphans (SolrSchema.get_field_names Sample.schema)
        (Solr.fields Sample.settled).*1 = [] →
      ∀ key, stats_get stats1 key = stats_get stats2 key) ∧
     Solr.fields s2 = Solr.fields s1) ∧
  (∃ stats1 s1 stats2 s2,
     SolrSchema.configure_solr_fieldtypes Sample.schema Sample.settled = (Ok stats1, s1) ∧
     SolrSchema.configure_solr_fieldtypes Sample.schema s1 = (Ok stats2, s2) ∧
     stats_get stats2 "added" = 0 ∧
     stats_get stats2 "updated"
     = Z.of_nat (length (SolrSchema.get_field_types Sample.schema)) ∧
     ((∀ n, n ∈ SolrSchema.get_field_types Sample.schema →
            n ∈ (Solr.field_types Sample.settled).*1) →
      ∀ key, stats_get stats1 key = stats_get stats2 key) ∧
     Solr.field_types s2 = Solr.field_types s1).
Proof.
  assert (NoDup Sample.schema.*1) as Hnd.
  { apply (bool_decide_unpack _). vm_compute. exact I. }
  split; [exact Hnd|].
  split; [apply Forall_forall, (bool_decide_unpack _); vm_compute; exact I|].
  split; [vm_compute; reflexivity|].
  split; [apply Forall_forall, (bool_decide_unpack _); vm_compute; exact I|].
  exact (reconcile_twice Sample.schema Sample.settled Hnd).
Defined.

(** * Further properties *)

(** ** Declared names *)




(** ** The order and the count of the calls of a fields run *)

Lemma field_calls_written (cls : SolrSchema.t) (current names : list string) :
  omap Trace.written (Run.field_call cls current <$> names) = names.
Proof.
  induction names as [|n names IH]; [reflexivity|].
  rewrite fmap_cons. unfold Run.field_call at 1.
  destruct (bool_decide (n ∉ current)); simpl; f_equal; exact IH.
Qed.

(** X2.  A fields run fetches the listing once, first; then writes the
    declared fields, one call each, in declaration order; then deletes, in
    listing order, the listed names that are neither protected nor declared.
    Nothing else is issued. *)
Theorem configure_solr_fields_order (cls : SolrSchema.t) (s : Solr.t) :
  NoDup cls.*1 →
  let current := (Solr.fields s).*1 in
  let declared := SolrSchema.get_field_names cls in
  ∃ stats s' writes,
    SolrSchema.configure_solr_fields cls s = (Ok stats, s') ∧
    Solr.calls s'
    = Solr.calls s
      ++ Solr.ListFields :: writes
      ++ (Solr.DeleteField
            <$> List.filter (λ n, negb (Run.protected n) && bool_decide (n ∉ declared))
                  current) ∧
    length writes = length declared ∧
    omap Trace.written writes = declared.
Proof.
  intros Hnd current declared.
  eexists _, _, (Run.field_call cls current <$> declared).
  split; [apply (configure_solr_fields_run cls s Hnd)|].
  split; [by rewrite calls_served|].
  split; [by rewrite length_fmap|apply field_calls_written].
Qed.

Lemma configure_solr_fields_order_witness :
  NoDup Sample.schema.*1 ∧
  ∃ stats s' writes,
    SolrSchema.configure_solr_fields Sample.schema Sample.remote = (Ok stats, s') ∧
    Solr.calls s'
    = Solr.calls Sample.remote
      ++ Solr.ListFields :: writes
      ++ (Solr.DeleteField
            <$> List.filter
                  (λ n, negb (Run.protected n)
                        && bool_decide (n ∉ SolrSchema.get_field_names Sample.schema))
                  (Solr.fields Sample.remote).*1) ∧
    length writes = length (SolrSchema.get_field_names Sample.schema) ∧
    omap Trace.written writes = SolrSchema.get_field_names Sample.schema.
Proof.
  assert (NoDup Sample.schema.*1) as Hnd.
  { apply (bool_decide_unpack _). vm_compute. exact I. }
  split; [exact Hnd|].
  exact (configure_solr_fields_order Sample.schema Sample.remote Hnd).
Defined.

Lemma fields_stats_get (cls : SolrSchema.t) (current : list string) (key : string) :
  stats_get (Run.fields_stats cls current) key
  = (if bool_decide (key = "added")
     then Run.how_many (λ n, bool_decide (n ∉ current)) (SolrSchema.get_field_names cls)
     else 0)
    + (if bool_decide (key = "replaced")
       then Run.how_many (λ n, bool_decide (n ∈ current)) (SolrSchema.get_field_names cls)
       else 0)
    + (if bool_decide (key = "deleted")
       then Z.of_nat (length (Run.orphans (SolrSchema.get_field_names cls) current))
       else 0).
Proof.
  unfold Run.fields_stats.
  rewrite !stats_get_tally, stats_get_empty, !how_many_fmap.
  set (declared := SolrSchema.get_field_names cls).
  assert (Run.how_many (λ n, bool_decide (Run.field_key current n = key)) declared
          = (if bool_decide (key = "added")
             then Run.how_many (λ n, bool_decide (n ∉ current)) declared else 0)
            + (if bool_decide (key = "replaced")
               then Run.how_many (λ n, bool_decide (n ∈ current)) declared else 0)) as ->.
  { destruct (decide (key = "added")) as [->|Ha];
      [|destruct (decide (key = "replaced")) as [->|Hr]].
    - rewrite bool_decide_eq_true_2, bool_decide_eq_false_2 by done.
      rewrite Z.add_0_r. apply how_many_ext. intros n _. unfold Run.field_key.
      by destruct (bool_decide (n ∉ current)).
    - rewrite bool_decide_eq_false_2, bool_decide_eq_true_2 by done.
      apply how_many_ext. intros n _. unfold Run.field_key.
      destruct (decide (n ∈ current)) as [Hn|Hn].
      + rewrite (bool_decide_eq_false_2 (n ∉ current)) by (intros H; by apply H).
        by rewrite (bool_decide_eq_true_2 (n ∈ current)).
      + rewrite (bool_decide_eq_true_2 (n ∉ current)) by done.
        by rewrite (bool_decide_eq_false_2 (n ∈ current)).
    - rewrite (bool_decide_eq_false_2 (key = "added")) by done.
      rewrite (bool_decide_eq_false_2 (key = "replaced")) by done.
      transitivity (Run.how_many (λ _ : string, false) declared);
        [|by rewrite how_many_false].
      apply how_many_ext. intros n _. unfold Run.field_key.
      destruct (bool_decide (n ∉ current)); by rewrite bool_decide_eq_false_2. }
  assert (Run.how_many (λ _ : string, bool_decide ("deleted" = key))
            (Run.orphans declared current)
          = if bool_decide (key = "deleted")
            then Z.of_nat (length (Run.orphans declared current)) else 0) as ->.
  { destruct (decide (key = "deleted")) as [->|Hd].
    - rewrite (bool_decide_eq_true_2 ("deleted" = "deleted")) by done.
      apply how_many_true.
    - rewrite (bool_decide_eq_false_2 (key = "deleted")) by done.
      rewrite (bool_decide_eq_false_2 ("deleted" = key)) by done.
      apply how_many_false. }
  lia.
Qed.

Lemma how_many_split {X} (p : X → bool) (l : list X) :
  Run.how_many p l + Run.how_many (λ x, negb (p x)) l = Z.of_nat (length l).
Proof.
  unfold Run.how_many. induction l as [|x l IH]; [reflexivity|].
  simpl. destruct (p x); simpl; lia.
Qed.

(** X3.  The counters of a fields run add up: every declared field is
    counted once, as added or as replaced; the calls issued are the listing
    and one call per unit counted; and no counter other than [added],
    [replaced] and [deleted] is ever touched. *)
Theorem configure_solr_fields_counters (cls : SolrSchema.t) (s : Solr.t) :
  NoDup cls.*1 →
  ∃ stats s' issued,
    SolrSchema.configure_solr_fields cls s = (Ok stats, s') ∧
    Solr.calls s' = Solr.calls s ++ issued ∧
    stats_get stats "added" + stats_get stats "replaced"
    = Z.of_nat (length (SolrSchema.get_field_names cls)) ∧
    Z.of_nat (length issued)
    = 1 + stats_get stats "added" + stats_get stats "replaced"
        + stats_get stats "deleted" ∧
    (∀ key, key ≠ "added" → key ≠ "replaced" → key ≠ "deleted" →
            stats_get stats key = 0).
Proof.
  intros Hnd. set (current := (Solr.fields s).*1).
  eexists _, _, (Run.fields_trace cls current).
  split; [apply (configure_solr_fields_run cls s Hnd)|].
  split; [apply calls_served|].
  rewrite !fields_stats_get. literal_keys.
  assert (Run.how_many (λ n, bool_decide (n ∉ current)) (SolrSchema.get_field_names cls)
          + Run.how_many (λ n, bool_decide (n ∈ current)) (SolrSchema.get_field_names cls)
          = Z.of_nat (length (SolrSchema.get_field_names cls))) as Hsum.
  { rewrite <- (how_many_split (λ n, bool_decide (n ∉ current))). f_equal.
    apply how_many_ext. intros n _.
    destruct (decide (n ∈ current)) as [Hn|Hn].
    - rewrite (bool_decide_eq_false_2 (n ∉ current)) by (intros H; by apply H).
      by rewrite (bool_decide_eq_true_2 (n ∈ current)).
    - rewrite (bool_decide_eq_true_2 (n ∉ current)) by done.
      by rewrite (bool_decide_eq_false_2 (n ∈ current)). }
  subst current. split; [lia|]. split.
  - unfold Run.fields_trace. cbn [length].
    rewrite length_app, !length_fmap. lia.
  - intros key Ha Hr Hd. rewrite fields_stats_get.
    by rewrite !bool_decide_eq_false_2.
Qed.

Lemma configure_solr_fields_counters_witness :
  NoDup Sample.schema.*1 ∧
  ∃ stats s' issued,
    SolrSchema.configure_solr_fields Sample.schema Sample.remote = (Ok stats, s') ∧
    Solr.calls s' = Solr.calls Sample.remote ++ issued ∧
    stats_get stats "added" + stats_get stats "replaced"
    = Z.of_nat (length (SolrSchema.get_field_names Sample.schema)) ∧
    Z.of_nat (length issued)
    = 1 + stats_get stats "added" + stats_get stats "replaced"
        + stats_get stats "deleted" ∧
    (∀ key, key ≠ "added" → key ≠ "replaced" → key ≠ "deleted" →
            stats_get stats key = 0).
Proof.
  assert (NoDup Sample.schema.*1) as Hnd.
  { apply (bool_decide_unpack _). vm_compute. exact I. }
  split; [exact Hnd|].
  exact (configure_solr_fields_counters Sample.schema Sample.remote Hnd).
Defined.

(** ** What a fields run deletes, and what it leaves behind *)

Lemma count_field_writes (p : Solr.call → bool) (cls : SolrSchema.t)
    (current : list string) :
  (∀ n, p (Solr.DeleteField n) = false) → p Solr.ListFields = false →
  Run.count p (Run.fields_trace cls current)
  = length (List.filter (λ n, p (Run.field_call cls current n))
              (SolrSchema.get_field_names cls)).
Proof.
  intros Hdel Hlist. unfold Run.fields_trace.
  change (Solr.ListFields :: ?l) with ([Solr.ListFields] ++ l).
  rewrite !count_app, count_fmap.
  rewrite (count_none p [_]), (count_none p (_ <$> _)); [lia| |].
  - intros c [n [-> _]]%list_elem_of_fmap. apply Hdel.
  - intros c ->%list_elem_of_singleton. apply Hlist.
Qed.

Lemma filter_nothing {X} (p : X → bool) (l : list X) :
  (∀ x, x ∈ l → p x = false) → List.filter p l = [].
Proof.
  induction l as [|x l IH]; intros Hp; [reflexivity|].
  simpl. rewrite (Hp x) by left. apply IH. intros y Hy. apply Hp. by right.
Qed.

(** X4.  A fields run deletes only what the listing it fetched showed: a
    deleted name was listed, is not declared and is not protected, and the
    same run neither adds nor replaces it. *)
Theorem configure_solr_fields_deletes_stale_only (cls : SolrSchema.t) (s : Solr.t) :
  NoDup cls.*1 →
  ∃ stats s' issued,
    SolrSchema.configure_solr_fields cls s = (Ok stats, s') ∧
    Solr.calls s' = Solr.calls s ++ issued ∧
    ∀ name, Solr.DeleteField name ∈ issued →
      name ∈ (Solr.fields s).*1 ∧
      (name ∉ SolrSchema.get_field_names cls) ∧
      Run.protected name = false ∧
      Run.count (Run.is_add_field name) issued = 0%nat ∧
      Run.count (Run.is_replace_field name) issued = 0%nat.
Proof.
  intros Hnd. set (current := (Solr.fields s).*1).
  eexists _, _, (Run.fields_trace cls current).
  split; [apply (configure_solr_fields_run cls s Hnd)|].
  split; [apply calls_served|].
  intros name Hin.
  assert (name ∈ Run.orphans (SolrSchema.get_field_names cls) current) as Horph.
  { unfold Run.fields_trace in Hin.
    apply elem_of_cons in Hin as [Hin|Hin]; [discriminate Hin|].
    apply elem_of_app in Hin as [Hin|Hin].
    - apply list_elem_of_fmap in Hin as [n [Heq _]]. unfold Run.field_call in Heq.
      by destruct (bool_decide (n ∉ current)).
    - apply list_elem_of_fmap in Hin as [n [Heq Hn]]. by injection Heq as ->. }
  apply orphans_undeclared in Horph as (Hcur & Hund & Hprot).
  split; [done|]. split; [done|]. split; [done|].
  split.
  - rewrite count_field_writes by done. rewrite filter_nothing; [done|].
    intros n Hn. unfold Run.field_call.
    destruct (bool_decide (n ∉ current)); simpl; [|done].
    apply bool_decide_eq_false_2. by intros ->.
  - rewrite count_field_writes by done. rewrite filter_nothing; [done|].
    intros n Hn. unfold Run.field_call.
    destruct (bool_decide (n ∉ current)); simpl; [done|].
    apply bool_decide_eq_false_2. by intros ->.
Qed.

Lemma configure_solr_fields_deletes_stale_only_witness :
  NoDup Sample.schema.*1 ∧
  ∃ stats s' issued,
    SolrSchema.configure_solr_fields Sample.schema Sample.remote = (Ok stats, s') ∧
    Solr.calls s' = Solr.calls Sample.remote ++ issued ∧
    ∀ name, Solr.DeleteField name ∈ issued →
      name ∈ (Solr.fields Sample.remote).*1 ∧
      (name ∉ SolrSchema.get_field_names Sample.schema) ∧
      Run.protected name = false ∧
      Run.count (Run.is_add_field name) issued = 0%nat ∧
      Run.count (Run.is_replace_field name) issued = 0%nat.
Proof.
  assert (NoDup Sample.schema.*1) as Hnd.
  { apply (bool_decide_unpack _). vm_compute. exact I. }
  split; [exact Hnd|].
  exact (configure_solr_fields_deletes_stale_only Sample.schema Sample.remote Hnd).
Defined.

(** The fields run, in full, for any class whose declared field names
    resolve to field descriptors. *)
Lemma configure_solr_fields_run_resolved (cls : SolrSchema.t) (s : Solr.t) :
  Forall (λ n, ∃ f, SolrSchema.class_lookup n cls = Some (SolrSchema.AField f))
    (SolrSchema.get_field_names cls) →
  SolrSchema.configure_solr_fields cls s =
  (Ok (Run.fields_stats cls (Solr.fields s).*1),
   Run.served (Run.fields_trace cls (Solr.fields s).*1) s).
Proof.
  intros Hnames. unfold SolrSchema.configure_solr_fields, Solr.list_fields.
  set (current := (Solr.fields s).*1).
  unfold Run.fields_stats, Run.fields_trace.
  change (Solr.ListFields :: ?l) with ([Solr.ListFields] ++ l).
  rewrite !served_app.
  rewrite bind_run. simpl.
  fold current.
  rewrite (bind_ok _ _ _ _ _ (fields_phase_one cls current _ ∅ _ Hnames)).
  rewrite (bind_ok _ _ _ _ _ (fields_phase_two _ current _ _)).
  reflexivity.
Qed.

(** X5.  A class that declares no field still runs the delete phase: the
    listing is fetched, every listed name that is not protected is deleted,
    nothing is added or replaced, and the remote keeps its protected fields
    only. *)
Theorem configure_solr_fields_nothing_declared (cls : SolrSchema.t) (s : Solr.t) :
  SolrSchema.get_field_names cls = [] →
  let current := (Solr.fields s).*1 in
  ∃ stats s',
    SolrSchema.configure_solr_fields cls s = (Ok stats, s') ∧
    Solr.calls s'
    = Solr.calls s
      ++ Solr.ListFields
         :: (Solr.DeleteField <$> List.filter (λ n, negb (Run.protected n)) current) ∧
    stats_get stats "added" = 0 ∧
    stats_get stats "replaced" = 0 ∧
    stats_get stats "deleted" = Run.how_many (λ n, negb (Run.protected n)) current ∧
    Solr.fields s' = List.filter (λ e, Run.protected e.1) (Solr.fields s).
Proof.
  intros Hnone current.
  assert (Run.orphans [] current = List.filter (λ n, negb (Run.protected n)) current)
    as Horph.
  { unfold Run.orphans. apply List.filter_ext. intros n.
    rewrite bool_decide_eq_true_2 by apply not_elem_of_nil. apply andb_true_r. }
  eexists _, _.
  split; [apply configure_solr_fields_run_resolved; by rewrite Hnone|].
  fold current. rewrite calls_served, !fields_stats_get, fields_trace_effect.
  unfold Run.fields_trace. rewrite Hnone, Horph. literal_keys.
  split; [done|]. split; [done|]. split; [done|]. split; [done|].
  simpl. apply List.filter_ext_in. intros e He.
  destruct (Run.protected e.1) eqn:Hp.
  - apply bool_decide_eq_true_2.
    intros [_ Hq]%list_elem_of_In%filter_In. by rewrite Hp in Hq.
  - apply bool_decide_eq_false_2. intros Hnot. apply Hnot.
    apply list_elem_of_In, filter_In. split; [|by rewrite Hp].
    apply list_elem_of_In, list_elem_of_fmap. exists e. split; [done|].
    by apply list_elem_of_In.
Qed.

Lemma configure_solr_fields_nothing_declared_witness :
  SolrSchema.get_field_names Cases.types_only = [] ∧
  ∃ stats s',
    SolrSchema.configure_solr_fields Cases.types_only Sample.remote = (Ok stats, s') ∧
    Solr.calls s'
    = Solr.calls Sample.remote
      ++ Solr.ListFields
         :: (Solr.DeleteField
               <$> List.filter (λ n, negb (Run.protected n)) (Solr.fields Sample.remote).*1) ∧
    stats_get stats "added" = 0 ∧
    stats_get stats "replaced" = 0 ∧
    stats_get stats "deleted"
    = Run.how_many (λ n, negb (Run.protected n)) (Solr.fields Sample.remote).*1 ∧
    Solr.fields s' = List.filter (λ e, Run.protected e.1) (Solr.fields Sample.remote).
Proof.
  split; [reflexivity|].
  apply (configure_solr_fields_nothing_declared Cases.types_only Sample.remote).
  reflexivity.
Defined.

Lemma overwrite_keeps (n : string) (d : gmap string pyval)
    (l : list (string * gmap string pyval)) (e : string * gmap string pyval) :
  e ∈ l → e.1 ≠ n → e ∈ Solr.overwrite n d l.
Proof.
  intros He Hne. unfold Solr.overwrite. apply list_elem_of_fmap.
  exists e. split; [|done]. by rewrite decide_False.
Qed.

Lemma upsert_fold_keeps (current : list string) (def : string → gmap string pyval)
    (names : list string) (l : list (string * gmap string pyval))
    (e : string * gmap string pyval) :
  e ∈ l → e.1 ∉ names → e ∈ foldl (Run.upsert current def) l names.
Proof.
  revert l. induction names as [|x names IH]; intros l He Hn; [done|].
  apply not_elem_of_cons in Hn as [Hx Hn]. simpl. apply IH; [|done].
  unfold Run.upsert. destruct (bool_decide (x ∈ current)).
  - by apply overwrite_keeps.
  - apply elem_of_app. by left.
Qed.

(** X6.  What a fields run leaves on the remote: every declared field is
    listed, and whatever is stored under a declared name is the declared
    definition; every name still listed is declared or protected; and a
    protected field that is not declared is kept as it was. *)
Theorem configure_solr_fields_reconciles (cls : SolrSchema.t) (s : Solr.t) :
  NoDup cls.*1 →
  let declared := SolrSchema.get_field_names cls in
  ∃ stats s',
    SolrSchema.configure_solr_fields cls s = (Ok stats, s') ∧
    (∀ n, n ∈ declared → n ∈ (Solr.fields s').*1) ∧
    (∀ n d, (n, d) ∈ Solr.fields s' → n ∈ declared → d = Run.declared_opts cls n) ∧
    (∀ n, n ∈ (Solr.fields s').*1 → n ∈ declared ∨ Run.protected n = true) ∧
    (∀ n d, (n, d) ∈ Solr.fields s → n ∉ declared → Run.protected n = true →
            (n, d) ∈ Solr.fields s').
Proof.
  intros Hnd declared.
  destruct (fields_again cls s Hnd) as (Hall & Hnone & _).
  set (current := (Solr.fields s).*1) in *.
  set (s1 := Run.served (Run.fields_trace cls current) s) in *.
  exists (Run.fields_stats cls current), s1.
  split; [by apply configure_solr_fields_run|].
  assert (Solr.fields s1
          = List.filter (λ e, bool_decide (e.1 ∉ Run.orphans declared current))
              (foldl (Run.upsert current (Run.declared_opts cls)) (Solr.fields s) declared))
    as Hs1.
  { apply fields_trace_effect. }
  split; [exact Hall|]. split; [|split].
  - intros n d Hin Hn. rewrite Hs1 in Hin.
    apply list_elem_of_In, filter_In in Hin as [Hin _]. apply list_elem_of_In in Hin.
    by apply (upsert_fold_defs current (Run.declared_opts cls) declared (Solr.fields s)).
  - intros n Hn. destruct (decide (n ∈ declared)) as [?|Hund]; [by left|right].
    destruct (Run.protected n) eqn:Hp; [done|exfalso].
    assert (n ∈ Run.orphans declared (Solr.fields s1).*1) as Habs.
    { unfold Run.orphans. apply list_elem_of_In, filter_In.
      split; [by apply list_elem_of_In|]. rewrite Hp. simpl.
      by apply bool_decide_eq_true. }
    fold declared in Hnone. rewrite Hnone in Habs. by apply elem_of_nil in Habs.
  - intros n d Hin Hund Hprot. rewrite Hs1.
    apply list_elem_of_In, filter_In. split.
    + apply list_elem_of_In. by apply upsert_fold_keeps.
    + apply bool_decide_eq_true. simpl.
      intros (_ & _ & Hp)%orphans_undeclared. congruence.
Qed.

Lemma configure_solr_fields_reconciles_witness :
  NoDup Sample.schema.*1 ∧
  ("title" ∈ SolrSchema.get_field_names Sample.schema) ∧
  (("id", ∅) ∈ Solr.fields Sample.remote
   ∧ ("id" ∉ SolrSchema.get_field_names Sample.schema)
   ∧ Run.protected "id" = true) ∧
  ∃ stats s',
    SolrSchema.configure_solr_fields Sample.schema Sample.remote = (Ok stats, s') ∧
    (∀ n, n ∈ SolrSchema.get_field_names Sample.schema → n ∈ (Solr.fields s').*1) ∧
    (∀ n d, (n, d) ∈ Solr.fields s' → n ∈ SolrSchema.get_field_names Sample.schema →
            d = Run.declared_opts Sample.schema n) ∧
    (∀ n, n ∈ (Solr.fields s').*1 →
          n ∈ SolrSchema.get_field_names Sample.schema ∨ Run.protected n = true) ∧
    (∀ n d, (n, d) ∈ Solr.fields Sample.remote →
            n ∉ SolrSchema.get_field_names Sample.schema → Run.protected n = true →
            (n, d) ∈ Solr.fields s').
Proof.
  assert (NoDup Sample.schema.*1) as Hnd.
  { apply (bool_decide_unpack _). vm_compute. exact I. }
  split; [exact Hnd|].
  split; [apply (bool_decide_unpack _); vm_compute; exact I|].
  split.
  { split; [left|]. split; [|reflexivity].
    apply (bool_decide_unpack _). vm_compute. exact I. }
  exact (configure_solr_fields_reconciles Sample.schema Sample.remote Hnd).
Defined.

(** ** Fields and field types are reconciled independently *)

Lemma foldl_unchanged {A X} (g : A → X → A) (l : list X) (a : A) :
  (∀ a x, x ∈ l → g a x = a) → foldl g a l = a.
Proof.
  induction l as [|x l IH]; intros Hg; [reflexivity|].
  simpl. rewrite Hg by left. apply IH. intros a' y Hy. apply Hg. by right.
Qed.

Lemma fields_trace_types (cls : SolrSchema.t) (current : list string) (s : Solr.t) :
  Solr.field_types (Run.served (Run.fields_trace cls current) s) = Solr.field_types s.
Proof.
  rewrite field_types_served. apply foldl_unchanged.
  intros fts c Hc. unfold Run.fields_trace in Hc.
  apply elem_of_cons in Hc as [->|Hc]; [reflexivity|].
  apply elem_of_app in Hc as [Hc|Hc];
    apply list_elem_of_fmap in Hc as [n [-> _]]; [|reflexivity].
  unfold Run.field_call. by destruct (bool_decide (n ∉ current)).
Qed.

Lemma types_trace_fields (cls : SolrSchema.t) (current : list string) (s : Solr.t) :
  Solr.fields (Run.served (Run.types_trace cls current) s) = Solr.fields s.
Proof.
  rewrite fields_served. apply foldl_unchanged.
  intros fs c Hc. unfold Run.types_trace in Hc.
  apply elem_of_cons in Hc as [->|Hc]; [reflexivity|].
  apply list_elem_of_fmap in Hc as [n [-> _]].
  unfold Run.type_call. by destruct (bool_decide (n ∈ current)).
Qed.

(** What a fields run returns and leaves, as a function of the remote
    fields alone. *)
Lemma fields_outcome (cls : SolrSchema.t) (s : Solr.t) :
  NoDup cls.*1 →
  let run := SolrSchema.configure_solr_fields cls s in
  run.1 = Ok (Run.fields_stats cls (Solr.fields s).*1) ∧
  Solr.field_types run.2 = Solr.field_types s ∧
  Solr.fields run.2
  = List.filter
      (λ e, bool_decide
              (e.1 ∉ Run.orphans (SolrSchema.get_field_names cls) (Solr.fields s).*1))
      (foldl (Run.upsert (Solr.fields s).*1 (Run.declared_opts cls)) (Solr.fields s)
         (SolrSchema.get_field_names cls)).
Proof.
  intros Hnd run. unfold run. rewrite (configure_solr_fields_run cls s Hnd).
  cbn [fst snd]. split; [done|]. split; [apply fields_trace_types|].
  apply fields_trace_effect.
Qed.

(** What a field-types run returns and leaves, as a function of the remote
    field types alone. *)
Lemma types_outcome (cls : SolrSchema.t) (s : Solr.t) :
  NoDup cls.*1 →
  let run := SolrSchema.configure_solr_fieldtypes cls s in
  run.1 = Ok (Run.types_stats cls (Solr.field_types s).*1) ∧
  Solr.fields run.2 = Solr.fields s ∧
  Solr.field_types run.2
  = foldl (Run.upsert (Solr.field_types s).*1 (Run.type_def cls)) (Solr.field_types s)
      (SolrSchema.get_field_types cls).
Proof.
  intros Hnd run. unfold run.
  destruct (decide (SolrSchema.get_field_types cls = [])) as [Hnone|Hsome].
  - rewrite (configure_solr_fieldtypes_none cls s Hnone).
    unfold Run.types_stats. rewrite Hnone. done.
  - rewrite (configure_solr_fieldtypes_run cls s Hnd Hsome). cbn [fst snd].
    split; [done|]. split; [apply types_trace_fields|apply types_trace_effect].
Qed.

(** X7.  The two reconcilers do not interfere: a fields run leaves the
    remote field types as they are and a field-types run leaves the remote
    fields as they are, so either run returns the same stats, and leaves
    the same definitions of its own kind, whether or not the other ran
    first. *)
Theorem reconcilers_independent (cls : SolrSchema.t) (s : Solr.t) :
  NoDup cls.*1 →
  let fields_run := SolrSchema.configure_solr_fields cls in
  let types_run := SolrSchema.configure_solr_fieldtypes cls in
  Solr.field_types (fields_run s).2 = Solr.field_types s ∧
  Solr.fields (types_run s).2 = Solr.fields s ∧
  (fields_run (types_run s).2).1 = (fields_run s).1 ∧
  (types_run (fields_run s).2).1 = (types_run s).1 ∧
  Solr.fields (fields_run (types_run s).2).2 = Solr.fields (fields_run s).2 ∧
  Solr.field_types (types_run (fields_run s).2).2 = Solr.field_types (types_run s).2.
Proof.
  intros Hnd fields_run types_run.
  destruct (fields_outcome cls s Hnd) as (Hf1 & Hf2 & Hf3).
  destruct (types_outcome cls s Hnd) as (Ht1 & Ht2 & Ht3).
  destruct (fields_outcome cls (types_run s).2 Hnd) as (Hg1 & Hg2 & Hg3).
  destruct (types_outcome cls (fields_run s).2 Hnd) as (Hu1 & Hu2 & Hu3).
  subst fields_run types_run. cbv zeta in *.
  split; [exact Hf2|]. split; [exact Ht2|].
  split; [by rewrite Hg1, Hf1, Ht2|].
  split; [by rewrite Hu1, Ht1, Hf2|].
  split; [by rewrite Hg3, Hf3, Ht2|by rewrite Hu3, Ht3, Hf2].
Qed.

Lemma reconcilers_independent_witness :
  NoDup Sample.schema.*1 ∧
  let fields_run := SolrSchema.configure_solr_fields Sample.schema in
  let types_run := SolrSchema.configure_solr_fieldtypes Sample.schema in
  Solr.field_types (fields_run Sample.remote).2 = Solr.field_types Sample.remote ∧
  Solr.fields (types_run Sample.remote).2 = Solr.fields Sample.remote ∧
  (fields_run (types_run Sample.remote).2).1 = (fields_run Sample.remote).1 ∧
  (types_run (fields_run Sample.remote).2).1 = (types_run Sample.remote).1 ∧
  Solr.fields (fields_run (types_run Sample.remote).2).2
  = Solr.fields (fields_run Sample.remote).2 ∧
  Solr.field_types (types_run (fields_run Sample.remote).2).2
  = Solr.field_types (types_run Sample.remote).2.
Proof.
  assert (NoDup Sample.schema.*1) as Hnd.
  { apply (bool_decide_unpack _). vm_compute. exact I. }
  split; [exact Hnd|].
  exact (reconcilers_independent Sample.schema Sample.remote Hnd).
Defined.

(** ** What a field-types run leaves behind, and what it issues *)

Lemma declared_type_def (cls : SolrSchema.t) (n : string) :
  n ∈ SolrSchema.get_field_types cls → NoDup cls.*1 →
  Run.type_def cls n = Run.declared_opts cls n ∧
  Run.declared_opts cls n !! "name" = None ∧
  is_Some (Run.declared_opts cls n !! "class") ∧
  is_Some (Run.declared_opts cls n !! "analyzer").
Proof.
  intros Hn Hnd.
  destruct (class_lookup_filter SolrSchema.isinstance_SolrFieldType cls n Hnd Hn)
    as [[| ft |] [Ha Hp]]; [done| |done].
  unfold Run.type_def, Run.declared_opts. rewrite Ha. simpl.
  split; [|split; [reflexivity|split; eexists; reflexivity]].
  rewrite delete_insert_eq. by apply delete_id.
Qed.

(** X8.  What a field-types run leaves on the remote: the names listed
    before stay listed, in place, followed by the declared types that were
    missing, in declaration order; whatever is stored under a declared name
    is the declared class and analyzer, without a [name] key; and a listed
    type that is not declared is kept as it was: nothing is ever deleted. *)
Theorem configure_solr_fieldtypes_reconciles (cls : SolrSchema.t) (s : Solr.t) :
  NoDup cls.*1 →
  let declared := SolrSchema.get_field_types cls in
  let current := (Solr.field_types s).*1 in
  ∃ stats s',
    SolrSchema.configure_solr_fieldtypes cls s = (Ok stats, s') ∧
    (Solr.field_types s').*1
    = current ++ List.filter (λ n, bool_decide (n ∉ current)) declared ∧
    (∀ n d, (n, d) ∈ Solr.field_types s' → n ∈ declared →
            d = Run.declared_opts cls n ∧ d !! "name" = None ∧
            is_Some (d !! "class") ∧ is_Some (d !! "analyzer")) ∧
    (∀ e, e ∈ Solr.field_types s → e.1 ∉ declared → e ∈ Solr.field_types s').
Proof.
  intros Hnd declared current.
  destruct (types_outcome cls s Hnd) as (Hstats & _ & Hleft).
  destruct (SolrSchema.configure_solr_fieldtypes cls s) as [r s'] eqn:Hrun.
  cbn [fst snd] in Hstats, Hleft. subst r.
  eexists _, s'. split; [reflexivity|]. rewrite Hleft.
  split; [apply upsert_fold_names|]. split.
  - intros n d Hin Hn.
    assert (d = Run.type_def cls n) as ->.
    { by apply (upsert_fold_defs current (Run.type_def cls) declared (Solr.field_types s)). }
    destruct (declared_type_def cls n Hn Hnd) as (-> & ? & ? & ?). done.
  - intros e He Hund. by apply upsert_fold_keeps.
Qed.

Lemma configure_solr_fieldtypes_reconciles_witness :
  NoDup Sample.schema.*1 ∧
  ("text_en" ∈ SolrSchema.get_field_types Sample.schema) ∧
  ∃ stats s',
    SolrSchema.configure_solr_fieldtypes Sample.schema Sample.blank = (Ok stats, s') ∧
    (Solr.field_types s').*1
    = (Solr.field_types Sample.blank).*1
      ++ List.filter (λ n, bool_decide (n ∉ (Solr.field_types Sample.blank).*1))
           (SolrSchema.get_field_types Sample.schema) ∧
    (∀ n d, (n, d) ∈ Solr.field_types s' →
            n ∈ SolrSchema.get_field_types Sample.schema →
            d = Run.declared_opts Sample.schema n ∧ d !! "name" = None ∧
            is_Some (d !! "class") ∧ is_Some (d !! "analyzer")) ∧
    (∀ e, e ∈ Solr.field_types Sample.blank →
          e.1 ∉ SolrSchema.get_field_types Sample.schema →
          e ∈ Solr.field_types s').
Proof.
  assert (NoDup Sample.schema.*1) as Hnd.
  { apply (bool_decide_unpack _). vm_compute. exact I. }
  split; [exact Hnd|].
  split; [apply (bool_decide_unpack _); vm_compute; exact I|].
  exact (configure_solr_fieldtypes_reconciles Sample.schema Sample.blank Hnd).
Defined.





(** ** The update handler, further *)

(** X10.  [index] fails in its own code, with [KeyError] at the deletion of
    [commitWithin], when a hard commit is asked for, no commit delay is
    passed and the stored parameters hold none: [urljoin] is not reached
    and no request is handed over.  In every other case the outcome is that
    of the two calls it makes: if [urljoin] raises, [index] raises the same
    and hands no request over; if [urljoin] returns, exactly one request is
    handed over, a post of the documents to the joined address, and [index]
    returns or raises as the transport does. *)
Theorem index_outcome {E : Update.Externals} (self : Update.t)
    (docs commit commit_within : pyval) (w : Update.world) :
  let stored := Update.heap w !!! Update.params self in
  let run := Update.index self docs commit commit_within w in
  let missing :=
    truthy commit = true ∧ truthy commit_within = false
    ∧ stored !! "commitWithin" = None in
  (missing →
     run.1 = Raise (KeyError "commitWithin") ∧
     Update.requests run.2 = Update.requests w) ∧
  (¬ missing →
     (∀ e, Update.urljoin (Update.url self +:+ "/") "json/docs" = Raise e →
           run.1 = Raise e ∧ Update.requests run.2 = Update.requests w) ∧
     (∀ u, Update.urljoin (Update.url self +:+ "/") "json/docs" = Ok u →
           ∃ req,
             Update.requests run.2 = Update.requests w ++ [req] ∧
             Update.req_method req = "post" ∧
             Update.req_url req = u ∧
             Update.req_data req = docs ∧
             run.1 = Update.transport (Update.requests w) req)).
Proof.
  intros stored run missing. unfold run. rewrite index_unfold. fold stored.
  destruct (Trace.nothing_to_delete stored commit commit_within) eqn:Hn;
    unfold Trace.nothing_to_delete in Hn.
  - apply andb_true_iff in Hn as [[Hc Hcw%negb_true_iff]%andb_true_iff Hk].
    assert missing as Hmiss.
    { split; [done|]. split; [done|]. by destruct (stored !! "commitWithin"). }
    split; [done|]. intros Hnot. by destruct Hnot.
  - split.
    { intros (Hc & Hcw & Hk). by rewrite Hc, Hcw, Hk in Hn. }
    intros _. cbv zeta. split.
    + intros e ->. done.
    + intros u ->. eexists. cbn [fst snd Update.requests].
      split; [reflexivity|]. done.
Qed.

Lemma index_outcome_witness :
  (truthy (PBool true) = true ∧ truthy PNone = false
   ∧ (Update.heap Cases.bare_world !!! Update.params Cases.bare_handler)
       !! "commitWithin" = None) ∧
  (¬ (truthy (PBool true) = true ∧ truthy PNone = false
      ∧ (Update.heap Sample.world !!! Update.params Sample.handler)
          !! "commitWithin" = None)) ∧
  Update.urljoin (Externals := Sample.no_join)
    (Update.url Sample.handler +:+ "/") "json/docs" = Raise ValueError ∧
  (let run := Update.index (E := Sample.externals) Cases.bare_handler (PList [])
                (PBool true) PNone Cases.bare_world in
   run.1 = Raise (KeyError "commitWithin") ∧
   Update.requests run.2 = Update.requests Cases.bare_world) ∧
  (let run := Update.index (E := Sample.no_join) Sample.handler (PList [])
                (PBool true) PNone Sample.world in
   run.1 = Raise ValueError ∧
   Update.requests run.2 = Update.requests Sample.world).
Proof.
  assert (truthy (PBool true) = true ∧ truthy PNone = false
          ∧ (Update.heap Cases.bare_world !!! Update.params Cases.bare_handler)
              !! "commitWithin" = None) as Hmiss.
  { repeat split; vm_compute; reflexivity. }
  assert (¬ (truthy (PBool true) = true ∧ truthy PNone = false
             ∧ (Update.heap Sample.world !!! Update.params Sample.handler)
                 !! "commitWithin" = None)) as Hnot.
  { intros (_ & _ & Hk). vm_compute in Hk. discriminate Hk. }
  split; [exact Hmiss|]. split; [exact Hnot|]. split; [reflexivity|].
  split.
  - exact (proj1 (index_outcome (E := Sample.externals) Cases.bare_handler (PList [])
                    (PBool true) PNone Cases.bare_world) Hmiss).
  - exact (proj1 (proj2 (index_outcome (E := Sample.no_join) Sample.handler (PList [])
                           (PBool true) PNone Sample.world) Hnot)
             ValueError eq_refl).
Defined.

(** X11.  What [index] prepares when it returns: the copy, at a fresh
    reference, of the stored parameters in which a hard commit is [commit =
    True] without [commitWithin], and a commit delay passed without a hard
    commit is [commitWithin]; with neither the copy equals the stored
    parameters. *)
Theorem index_prepares {E : Update.Externals} (self : Update.t)
    (docs commit commit_within : pyval) (w : Update.world) :
  let stored := Update.heap w !!! Update.params self in
  let run := Update.index self docs commit commit_within w in
  run.1 = Ok () →
  ∃ local,
    Update.heap run.2 !! fresh (dom (Update.heap w)) = Some local ∧
    Update.heap w !! fresh (dom (Update.heap w)) = None ∧
    (truthy commit = true →
       local !! "commit" = Some (PBool true) ∧ local !! "commitWithin" = None) ∧
    (truthy commit = false → truthy commit_within = true →
       local = <["commitWithin" := commit_within]> stored) ∧
    (truthy commit = false → truthy commit_within = false → local = stored).
Proof.
  intros stored run. unfold run. rewrite index_unfold. fold stored.
  destruct (Trace.nothing_to_delete stored commit commit_within);
    cbn [fst snd]; [discriminate|].
  cbv zeta. destruct (Update.urljoin _ _) as [u|e]; cbn [fst snd]; [|discriminate].
  intros _.
  exists (Trace.prepared stored commit commit_within).
  split; [apply lookup_insert_eq|].
  split; [apply not_elem_of_dom, is_fresh|].
  unfold Trace.prepared. split; [|split].
  - intros ->. split; [apply lookup_insert_eq|].
    rewrite lookup_insert_ne by done. apply lookup_delete_eq.
  - by intros -> ->.
  - by intros -> ->.
Qed.

Lemma index_prepares_witness :
  (let run := Update.index (E := Sample.externals) Sample.handler (PList [])
                (PBool true) PNone Sample.world in
   run.1 = Ok ()) ∧
  truthy (PBool true) = true ∧
  let stored := Update.heap Sample.world !!! Update.params Sample.handler in
  let run := Update.index (E := Sample.externals) Sample.handler (PList [])
               (PBool true) PNone Sample.world in
  ∃ local,
    Update.heap run.2 !! fresh (dom (Update.heap Sample.world)) = Some local ∧
    Update.heap Sample.world !! fresh (dom (Update.heap Sample.world)) = None ∧
    (truthy (PBool true) = true →
       local !! "commit" = Some (PBool true) ∧ local !! "commitWithin" = None) ∧
    (truthy (PBool true) = false → truthy PNone = true →
       local = <["commitWithin" := PNone]> stored) ∧
    (truthy (PBool true) = false → truthy PNone = false → local = stored).
Proof.
  assert ((Update.index (E := Sample.externals) Sample.handler (PList []) (PBool true)
             PNone Sample.world).1 = Ok ()) as Hrun.
  { vm_compute. reflexivity. }
  split; [exact Hrun|]. split; [reflexivity|].
  exact (index_prepares (E := Sample.externals) Sample.handler (PList []) (PBool true)
           PNone Sample.world Hrun).
Defined.

(** [__init__], step by step. *)
Lemma init_unfold (client : Update.SolrClient) (commit_within : pyval)
    (w : Update.world) :
  let l1 := fresh (dom (Update.heap w)) in
  let h1 := <[l1 := {[ "Content-Type" := PStr "application/json" ]}]> (Update.heap w) in
  let l2 := fresh (dom h1) in
  Update.__init__ client commit_within w =
  (Ok {| Update.client := client;
         Update.url := Update.build_url client (Update.update_handler client);
         Update.headers := l1; Update.params := l2 |},
   {| Update.heap := <[l2 := {[ "commitWithin" := commit_within ]}]> h1;
      Update.requests := Update.requests w |}).
Proof. reflexivity. Qed.

(** X12.  A handler is built on two new dictionaries of its own: the
    headers and the parameters are distinct objects that did not exist
    before, the parameters hold the commit delay under [commitWithin] and
    nothing else, the dictionaries that existed are left as they were, and
    building sends no request. *)
Theorem init_allocates (client : Update.SolrClient) (commit_within : pyval)
    (w : Update.world) :
  ∃ self w',
    Update.__init__ client commit_within w = (Ok self, w') ∧
    Update.headers self ≠ Update.params self ∧
    Update.heap w !! Update.headers self = None ∧
    Update.heap w !! Update.params self = None ∧
    Update.heap w' !! Update.params self = Some {[ "commitWithin" := commit_within ]} ∧
    Update.heap w' !! Update.headers self
    = Some {[ "Content-Type" := PStr "application/json" ]} ∧
    (∀ l d, Update.heap w !! l = Some d → Update.heap w' !! l = Some d) ∧
    Update.requests w' = Update.requests w ∧
    Update.url self = Update.build_url client (Update.update_handler client).
Proof.
  eexists _, _. split; [apply init_unfold|]. cbn [Update.headers Update.params
    Update.heap Update.requests Update.url].
  set (l1 := fresh (dom (Update.heap w))).
  set (h1 := <[l1 := {[ "Content-Type" := PStr "application/json" ]}]> (Update.heap w)).
  set (l2 := fresh (dom h1)).
  assert (Update.heap w !! l1 = None) as H1 by apply not_elem_of_dom, is_fresh.
  assert (h1 !! l2 = None) as H2 by apply not_elem_of_dom, is_fresh.
  assert (l1 ≠ l2) as Hne.
  { intros Heq. rewrite <- Heq in H2. unfold h1 in H2.
    by rewrite lookup_insert_eq in H2. }
  split; [done|]. split; [done|]. split.
  { unfold h1 in H2. by rewrite lookup_insert_ne in H2. }
  split; [apply lookup_insert_eq|]. split.
  { rewrite lookup_insert_ne by done. apply lookup_insert_eq. }
  split; [|done].
  intros l d Hl.
  assert (l1 ≠ l) as Hl1 by (intros <-; congruence).
  assert (l2 ≠ l) as Hl2.
  { intros <-. unfold h1 in H2. rewrite lookup_insert_ne in H2 by done. congruence. }
  rewrite lookup_insert_ne by done. unfold h1. by rewrite lookup_insert_ne.
Qed.

(** One call on a handler whose dictionaries hold what [__init__] put
    there: at most one request is handed over, with those headers and
    parameters, both dictionaries are left as they were, and a failure is a
    failure of [urljoin] or of the transport. *)
Lemma perform_built {E : Update.Externals} (self : Update.t) (cw : pyval)
    (o : Session.op) (w : Update.world) :
  Update.heap w !! Update.params self = Some {[ "commitWithin" := cw ]} →
  Update.heap w !! Update.headers self
  = Some {[ "Content-Type" := PStr "application/json" ]} →
  ∃ r w' sent,
    Session.perform self o w = (r, w') ∧
    Update.requests w' = Update.requests w ++ sent ∧
    (length sent ≤ 1)%nat ∧
    (r = Ok () → length sent = 1%nat) ∧
    Forall (λ req, Update.req_method req = "post"
                   ∧ Update.req_params req = {[ "commitWithin" := cw ]}
                   ∧ Update.req_headers req
                     = {[ "Content-Type" := PStr "application/json" ]}) sent ∧
    Update.heap w' !! Update.params self = Some {[ "commitWithin" := cw ]} ∧
    Update.heap w' !! Update.headers self
    = Some {[ "Content-Type" := PStr "application/json" ]} ∧
    (∀ e, r = Raise e →
       Update.urljoin (Update.url self +:+ "/") "json/docs" = Raise e
       ∨ ∃ earlier req, Update.transport earlier req = Raise e) ∧
    ((∃ u, Update.urljoin (Update.url self +:+ "/") "json/docs" = Ok u) →
     (∀ earlier req, Update.transport earlier req = Ok ()) → r = Ok ()).
Proof.
  intros Hp Hh.
  assert (Update.heap w !!! Update.params self = {[ "commitWithin" := cw ]}) as Hpt.
  { by apply lookup_total_correct. }
  assert (Update.heap w !!! Update.headers self
          = {[ "Content-Type" := PStr "application/json" ]}) as Hht.
  { by apply lookup_total_correct. }
  assert (∀ method url data,
            Update.make_request (Update.client self) method url data
              (Update.params self) (Update.headers self) w
            = (Update.transport (Update.requests w)
                 (Update.mkRequest method url data {[ "commitWithin" := cw ]}
                    {[ "Content-Type" := PStr "application/json" ]}),
               {| Update.heap := Update.heap w;
                  Update.requests :=
                    Update.requests w
                    ++ [Update.mkRequest method url data {[ "commitWithin" := cw ]}
                          {[ "Content-Type" := PStr "application/json" ]}] |})) as Hreq.
  { intros method url data.
    unfold Update.make_request, Update.load, mbind, Eff_bind, gets, modify, lift.
    by rewrite Hpt, Hht. }
  destruct o as [docs commit commit_within|id_list|query].
  - cbn [Session.perform]. rewrite index_unfold, Hpt.
    assert (Trace.nothing_to_delete {[ "commitWithin" := cw ]} commit commit_within
            = false) as ->.
    { unfold Trace.nothing_to_delete. rewrite lookup_singleton_eq.
      apply andb_false_r. }
    assert (Update.params self ≠ fresh (dom (Update.heap w))) as Hfp.
    { apply fresh_not_allocated, elem_of_dom. by rewrite Hp. }
    assert (Update.headers self ≠ fresh (dom (Update.heap w))) as Hfh.
    { apply fresh_not_allocated, elem_of_dom. by rewrite Hh. }
    cbv zeta.
    destruct (Update.urljoin (Update.url self +:+ "/") "json/docs") as [u|e] eqn:Hjoin.
    + eexists _, _, [_]. split; [reflexivity|].
      cbn [Update.requests Update.heap].
      rewrite !lookup_total_insert_ne, !lookup_insert_ne, Hpt, Hht by done.
      split; [done|]. split; [done|]. split; [done|]. split; [by constructor|].
      split; [done|]. split; [done|]. split.
      * intros e He. right. eauto.
      * intros _ Hok. apply Hok.
    + eexists _, _, []. split; [reflexivity|].
      cbn [Update.requests Update.heap Update.set_heap].
      rewrite !lookup_insert_ne, app_nil_r by done.
      split; [done|]. split; [simpl; lia|]. split; [discriminate|].
      split; [constructor|]. split; [done|]. split; [done|]. split.
      * intros e' [= ->]. by left.
      * intros [u Hu]. discriminate Hu.
  - cbn [Session.perform]. unfold Update.delete_by_id, Update._delete. rewrite Hreq.
    eexists _, _, [_]. split; [reflexivity|]. cbn [Update.requests Update.heap].
    split; [done|]. split; [done|]. split; [done|]. split; [by constructor|].
    split; [done|]. split; [done|]. split.
    + intros e He. right. eauto.
    + intros _ Hok. apply Hok.
  - cbn [Session.perform]. unfold Update.delete_by_query, Update._delete. rewrite Hreq.
    eexists _, _, [_]. split; [reflexivity|]. cbn [Update.requests Update.heap].
    split; [done|]. split; [done|]. split; [done|]. split; [by constructor|].
    split; [done|]. split; [done|]. split.
    + intros e He. right. eauto.
    + intros _ Hok. apply Hok.
Qed.

Lemma init_built (client : Update.SolrClient) (cw : pyval) (w : Update.world) :
  ∃ self w0,
    Update.__init__ client cw w = (Ok self, w0) ∧
    Update.heap w0 !! Update.params self = Some {[ "commitWithin" := cw ]} ∧
    Update.heap w0 !! Update.headers self
    = Some {[ "Content-Type" := PStr "application/json" ]} ∧
    Update.requests w0 = Update.requests w.
Proof.
  eexists _, _. split; [apply init_unfold|].
  cbn [Update.headers Update.params Update.heap Update.requests].
  split; [apply lookup_insert_eq|]. split; [|done].
  rewrite lookup_insert_ne; [apply lookup_insert_eq|].
  intros Heq.
  pose proof (is_fresh (dom (<[fresh (dom (Update.heap w))
                               := {[ "Content-Type" := PStr "application/json" ]}]>
                              (Update.heap w)))) as Hfresh.
  rewrite Heq in Hfresh. apply Hfresh, elem_of_dom.
  rewrite lookup_insert_eq. eauto.
Qed.

Lemma run_built {E : Update.Externals} (self : Update.t) (cw : pyval)
    (ops : list Session.op) (w0 : Update.world) :
  Update.heap w0 !! Update.params self = Some {[ "commitWithin" := cw ]} →
  Update.heap w0 !! Update.headers self
  = Some {[ "Content-Type" := PStr "application/json" ]} →
  ∃ r w' sent,
    Session.run self ops w0 = (r, w') ∧
    Update.requests w' = Update.requests w0 ++ sent ∧
    (length sent ≤ length ops)%nat ∧
    (r = Ok () → length sent = length ops) ∧
    Forall (λ req, Update.req_method req = "post"
                   ∧ Update.req_params req = {[ "commitWithin" := cw ]}
                   ∧ Update.req_headers req
                     = {[ "Content-Type" := PStr "application/json" ]}) sent ∧
    Update.heap w' !! Update.params self = Some {[ "commitWithin" := cw ]} ∧
    (∀ e, r = Raise e →
       Update.urljoin (Update.url self +:+ "/") "json/docs" = Raise e
       ∨ ∃ earlier req, Update.transport earlier req = Raise e) ∧
    ((∃ u, Update.urljoin (Update.url self +:+ "/") "json/docs" = Ok u) →
     (∀ earlier req, Update.transport earlier req = Ok ()) → r = Ok ()).
Proof.
  revert w0. induction ops as [|o ops IH]; intros w0 Hp Hh.
  - exists (Ok ()), w0, []. rewrite app_nil_r.
    split; [reflexivity|]. split; [done|]. split; [done|]. split; [done|].
    split; [constructor|]. split; [done|]. split; [discriminate|done].
  - destruct (perform_built self cw o w0 Hp Hh)
      as (r1 & w1 & sent1 & Hrun & Hsent & Hle & Hlen & Hall & Hp1 & Hh1 & Hfail & Hok).
    destruct r1 as [[]|e].
    + destruct (IH w1 Hp1 Hh1)
        as (r & w' & sent & Hrun' & Hsent' & Hle' & Hlen' & Hall' & Hp' & Hfail' & Hok').
      exists r, w', (sent1 ++ sent).
      split.
      { unfold Session.run in *. cbn [for_each].
        by rewrite (bind_ok _ _ _ _ _ Hrun). }
      split; [by rewrite Hsent', Hsent, <- app_assoc|].
      specialize (Hlen eq_refl). rewrite length_app, Hlen. cbn [length].
      split; [lia|]. split; [intros Hr; specialize (Hlen' Hr); lia|].
      split; [by apply Forall_app|]. split; [done|]. split; [exact Hfail'|exact Hok'].
    + exists (Raise e), w1, sent1.
      split.
      { unfold Session.run. cbn [for_each]. unfold mbind, Eff_bind. by rewrite Hrun. }
      split; [done|]. cbn [length]. split; [lia|]. split; [discriminate|].
      split; [done|]. split; [done|]. split; [exact Hfail|].
      intros Hjoin Htr. discriminate (Hok Hjoin Htr).
Qed.

(** X13.  However a handler built by [__init__] is used afterwards, in any
    sequence of [index], [delete_by_id] and [delete_by_query] calls with any
    arguments, and whatever [urljoin] and the transport answer: the calls
    hand over at most one request each, exactly one each if the sequence
    runs to its end; every request handed over is a post that carries the
    parameters and headers the handler was built with; the stored
    parameters are the same at the end; a failure is a failure of [urljoin]
    at the handler's address or of the transport, never of the handler's
    own code; and when [urljoin] returns there and the transport accepts
    every request, the sequence runs to its end. *)
Theorem session_keeps_defaults {E : Update.Externals} (client : Update.SolrClient)
    (cw : pyval) (ops : list Session.op) (w : Update.world) :
  ∃ self w0 r w' sent,
    Update.__init__ client cw w = (Ok self, w0) ∧
    Session.run self ops w0 = (r, w') ∧
    Update.requests w' = Update.requests w ++ sent ∧
    (length sent ≤ length ops)%nat ∧
    (r = Ok () → length sent = length ops) ∧
    Forall (λ req, Update.req_method req = "post"
                   ∧ Update.req_params req = {[ "commitWithin" := cw ]}
                   ∧ Update.req_headers req
                     = {[ "Content-Type" := PStr "application/json" ]}) sent ∧
    Update.heap w' !! Update.params self = Some {[ "commitWithin" := cw ]} ∧
    (∀ e, r = Raise e →
       Update.urljoin (Update.url self +:+ "/") "json/docs" = Raise e
       ∨ ∃ earlier req, Update.transport earlier req = Raise e) ∧
    ((∃ u, Update.urljoin (Update.url self +:+ "/") "json/docs" = Ok u) →
     (∀ earlier req, Update.transport earlier req = Ok ()) → r = Ok ()).
Proof.
  destruct (init_built client cw w) as (self & w0 & Hinit & Hp & Hh & Hreq).
  destruct (run_built self cw ops w0 Hp Hh) as (r & w' & sent & Hrun & Hsent & Hrest).
  exists self, w0, r, w', sent. rewrite <- Hreq. done.
Qed.

Lemma session_keeps_defaults_witness :
  let ops := [Session.Index (PList []) (PBool true) PNone;
              Session.DeleteById (PList [PStr "thing.a"]);
              Session.DeleteByQuery (PStr "*:*")] in
  (∃ self w0 r w' sent,
     Update.__init__ Sample.client (PInt 1000) Sample.nothing = (Ok self, w0) ∧
     Session.run (E := Sample.externals) self ops w0 = (r, w') ∧
     r = Ok () ∧ length sent = 3%nat ∧
     Update.requests w' = Update.requests Sample.nothing ++ sent) ∧
  (∃ self w0 r w' sent,
     Update.__init__ Sample.client (PInt 1000) Sample.nothing = (Ok self, w0) ∧
     Session.run (E := Sample.flaky) self ops w0 = (r, w') ∧
     r = Raise (Exception "connection refused") ∧ length sent = 2%nat ∧
     Update.requests w' = Update.requests Sample.nothing ++ sent).
Proof.
  intros ops. split.
  - destruct (session_keeps_defaults (E := Sample.externals) Sample.client (PInt 1000)
                ops Sample.nothing)
      as (self & w0 & r & w' & sent & Hinit & Hrun & Hsent & _ & Hlen & _ & _ & _ & Hok).
    assert (r = Ok ()) as Hr.
    { apply Hok; [by eexists|done]. }
    exists self, w0, r, w', sent.
    split; [exact Hinit|]. split; [exact Hrun|]. split; [exact Hr|].
    split; [exact (Hlen Hr)|exact Hsent].
  - eexists _, _, _, _, _.
    split; [vm_compute; reflexivity|]. split; [vm_compute; reflexivity|].
    split; [reflexivity|]. split; [|reflexivity]. reflexivity.
Defined.

(** ** The client configured from Django settings *)

(** The outcome of [__init__], case by case in the order of its checks, with
    the client it builds in full. *)
Lemma init_cases (settings : gmap string pyval) (args : list pyval)
    (kwargs : gmap string pyval) :
  let solr_opts := default PNone (settings !! "SOLR_CONNECTIONS") in
  let run := DjangoSolrClient.__init__ settings args kwargs in
  (truthy solr_opts = false ∧
   run = Django.Raises (Django.ImproperlyConfigured
           "SolrClient requires SOLR_CONNECTIONS in settings"))
  ∨ (truthy solr_opts = true ∧ (∀ conn, solr_opts ≠ PDict conn) ∧
     run = Django.Raises (Django.Builtin AttributeError))
  ∨ (∃ conn, solr_opts = PDict conn ∧
       truthy (default PNone (conn !! "default")) = false ∧
       run = Django.Raises (Django.ImproperlyConfigured
               ("No " +:+ Django.quote +:+ "default" +:+ Django.quote
                  +:+ " section in SOLR_CONNECTIONS configuration")))
  ∨ (∃ conn v, solr_opts = PDict conn ∧ conn !! "default" = Some v ∧
       truthy v = true ∧ (∀ dflt, v ≠ PDict dflt) ∧
       run = Django.Raises (Django.Builtin AttributeError))
  ∨ (∃ conn dflt, solr_opts = PDict conn ∧ conn !! "default" = Some (PDict dflt) ∧
       truthy (default PNone (dflt !! "URL")) = false ∧
       run = Django.Raises (Django.ImproperlyConfigured
               "No URL in default SOLR_CONNECTIONS configuration"))
  ∨ (∃ conn dflt url, solr_opts = PDict conn ∧
       conn !! "default" = Some (PDict dflt) ∧
       dflt !! "URL" = Some url ∧ truthy url = true ∧
       run = Django.Returns
               {| Django.url := url;
                  Django.collection := default (PStr "") (dflt !! "COLLECTION");
                  Django.args := args;
                  Django.kwargs :=
                    if kwargs !! "commitWithin" is Some _ then kwargs
                    else if truthy (default PNone (dflt !! "COMMITWITHIN"))
                         then <["commitWithin" := default PNone (dflt !! "COMMITWITHIN")]>
                                kwargs
                         else kwargs |}).
Proof.
  intros solr_opts run. unfold run, DjangoSolrClient.__init__. fold solr_opts.
  destruct (truthy solr_opts) eqn:Hv; cbn [negb]; [|by left].
  right.
  destruct solr_opts as [| | | | |conn] eqn:Hso;
    try (left; split; [done|]; split; [discriminate|reflexivity]).
  right. cbn [Django.get mbind Django.outcome_bind].
  destruct (truthy (default PNone (conn !! "default"))) eqn:Hw; cbn [negb];
    [|left; by exists conn].
  right.
  destruct (conn !! "default") as [w|] eqn:Hd; [|discriminate Hw].
  cbn [default] in *.
  destruct w as [| | | | |dflt];
    try (left; eexists conn, _;
         split; [done|]; split; [exact Hd|]; split; [done|]; split;
         [discriminate|reflexivity]).
  right. cbn [id Django.get mbind Django.outcome_bind].
  destruct (truthy (default PNone (dflt !! "URL"))) eqn:Hu; cbn [negb];
    [|left; by exists conn, dflt].
  right.
  destruct (dflt !! "URL") as [url|] eqn:Hurl; [|discriminate Hu].
  cbn [default] in *.
  exists conn, dflt, url. by repeat split.
Qed.



(** X15.  When [SolrClient()] is built, the positional arguments and every
    keyword other than [commitWithin] go through untouched; a [commitWithin]
    passed by the caller always wins, whatever its value; without one, the
    configured [COMMITWITHIN] is forwarded if it is true and not otherwise;
    the collection is the configured one, or the empty string. *)
Theorem django_client_keywords (settings : gmap string pyval) (args : list pyval)
    (kwargs : gmap string pyval) (c : Django.client) :
  DjangoSolrClient.__init__ settings args kwargs = Django.Returns c →
  ∃ conn dflt,
    settings !! "SOLR_CONNECTIONS" = Some (PDict conn) ∧
    conn !! "default" = Some (PDict dflt) ∧
    Django.args c = args ∧
    Django.collection c = default (PStr "") (dflt !! "COLLECTION") ∧
    (∀ k, k ≠ "commitWithin" → Django.kwargs c !! k = kwargs !! k) ∧
    (is_Some (kwargs !! "commitWithin") → Django.kwargs c = kwargs) ∧
    (kwargs !! "commitWithin" = None →
       Django.kwargs c !! "commitWithin"
       = if truthy (default PNone (dflt !! "COMMITWITHIN"))
         then Some (default PNone (dflt !! "COMMITWITHIN")) else None).
Proof.
  intros Hrun.
  destruct (init_cases settings args kwargs)
    as [[_ H]|[(_ & _ & H)|[(? & _ & _ & H)|[(? & ? & _ & _ & _ & _ & H)
       |[(? & ? & _ & _ & _ & H)|(conn & dflt & url & Hs & Hd & Hu & Ht & H)]]]]];
    rewrite Hrun in H; try discriminate H.
  injection H as ->. exists conn, dflt.
  split.
  { destruct (settings !! "SOLR_CONNECTIONS") as [v|]; [|discriminate Hs].
    simpl in Hs. by subst v. }
  split; [done|]. cbn [Django.args Django.collection Django.kwargs].
  split; [done|]. split; [done|].
  set (cw := default PNone (dflt !! "COMMITWITHIN")).
  split; [|split].
  - intros k Hk. destruct (kwargs !! "commitWithin"); [done|].
    destruct (truthy cw); [|done]. by rewrite lookup_insert_ne.
  - intros [v Hv]. by rewrite Hv.
  - intros Hnone. rewrite Hnone. destruct (truthy cw); [apply lookup_insert_eq|done].
Qed.

Lemma django_client_keywords_witness :
  (∃ c, DjangoSolrClient.__init__ Cases.settings [] {[ "commitWithin" := PNone ]}
        = Django.Returns c ∧
        is_Some (({[ "commitWithin" := PNone ]} : gmap string pyval) !! "commitWithin") ∧
        Django.kwargs c = {[ "commitWithin" := PNone ]}) ∧
  (∃ c, DjangoSolrClient.__init__ Cases.settings [] ∅ = Django.Returns c ∧
        (∅ : gmap string pyval) !! "commitWithin" = None ∧
        Django.kwargs c !! "commitWithin" = Some (PInt 1000)).
Proof.
  split.
  - eexists. split; [vm_compute; reflexivity|].
    assert (is_Some (({[ "commitWithin" := PNone ]} : gmap string pyval)
                       !! "commitWithin")) as Hsome.
    { rewrite lookup_singleton_eq. eauto. }
    split; [exact Hsome|].
    destruct (django_client_keywords Cases.settings [] {[ "commitWithin" := PNone ]} _
                eq_refl) as (conn & dflt & _ & _ & _ & _ & _ & Hwins & _).
    exact (Hwins Hsome).
  - eexists. split; [vm_compute; reflexivity|]. split; [reflexivity|].
    vm_compute. reflexivity.
Defined.

Lemma truthy_with_key (d : gmap string pyval) (k : string) (v : pyval) :
  d !! k = Some v → truthy (PDict d) = true.
Proof.
  intros Hk. simpl. apply negb_true_iff, Nat.eqb_neq.
  intros Hsize. apply map_size_empty_iff in Hsize. subst d.
  by rewrite lookup_empty in Hk.
Qed.

(** What [SolrClient()] returns, and when: with no argument it is built
    exactly when the settings hold a default connection with a true [URL],
    and then it is the client those settings describe. *)
Lemma init_default (settings : gmap string pyval) (c : Django.client) :
  DjangoSolrClient.__init__ settings [] ∅ = Django.Returns c
  ↔ ∃ conn dflt url,
      settings !! "SOLR_CONNECTIONS" = Some (PDict conn) ∧
      conn !! "default" = Some (PDict dflt) ∧
      dflt !! "URL" = Some url ∧ truthy url = true ∧
      c = {| Django.url := url;
             Django.collection := default (PStr "") (dflt !! "COLLECTION");
             Django.args := [];
             Django.kwargs :=
               if truthy (default PNone (dflt !! "COMMITWITHIN"))
               then {[ "commitWithin" := default PNone (dflt !! "COMMITWITHIN") ]}
               else ∅ |}.
Proof.
  assert (∀ conn, default PNone (settings !! "SOLR_CONNECTIONS") = PDict conn →
                  settings !! "SOLR_CONNECTIONS" = Some (PDict conn)) as Hsettings.
  { intros conn Hs. destruct (settings !! "SOLR_CONNECTIONS") as [v|]; [|discriminate Hs].
    simpl in Hs. by subst v. }
  destruct (init_cases settings [] ∅)
    as [[Ha H]|[(Ha & Hb & H)|[(conn & Hs & Hc & H)|[(conn & v & Hs & Hd & Hv & Hb & H)
       |[(conn & dflt & Hs & Hd & Hu & H)|(conn & dflt & url & Hs & Hd & Hu & Ht & H)]]]]];
    rewrite H; clear H.
  - split; [discriminate|]. intros (conn & dflt & url & Hs & Hd & _).
    rewrite Hs in Ha. change (truthy (PDict conn) = false) in Ha.
    by rewrite (truthy_with_key _ _ _ Hd) in Ha.
  - split; [discriminate|]. intros (conn & dflt & url & Hs & _).
    rewrite Hs in Hb. by destruct (Hb conn).
  - split; [discriminate|]. intros (conn' & dflt & url & Hs' & Hd & Hu & _).
    apply Hsettings in Hs. rewrite Hs in Hs'. injection Hs' as <-.
    rewrite Hd in Hc. change (truthy (PDict dflt) = false) in Hc.
    by rewrite (truthy_with_key _ _ _ Hu) in Hc.
  - split; [discriminate|]. intros (conn' & dflt & url & Hs' & Hd' & _).
    apply Hsettings in Hs. rewrite Hs in Hs'. injection Hs' as <-.
    rewrite Hd in Hd'. injection Hd' as ->. by destruct (Hb dflt).
  - split; [discriminate|]. intros (conn' & dflt' & url & Hs' & Hd' & Hu' & Ht & _).
    apply Hsettings in Hs. rewrite Hs in Hs'. injection Hs' as <-.
    rewrite Hd in Hd'. injection Hd' as <-.
    rewrite Hu' in Hu. change (truthy url = false) in Hu. congruence.
  - rewrite lookup_empty, insert_empty. split.
    + intros [= <-]. exists conn, dflt, url. by repeat split; try apply Hsettings.
    + intros (conn' & dflt' & url' & Hs' & Hd' & Hu' & _ & ->).
      apply Hsettings in Hs. rewrite Hs in Hs'. injection Hs' as <-.
      rewrite Hd in Hd'. injection Hd' as <-.
      rewrite Hu in Hu'. by injection Hu' as <-.
Qed.

(** X16.  The client a query set ends up with, [solr or SolrClient()].  An
    object handed in that is true is kept whatever the settings say, also
    when they would make [SolrClient()] raise.  With no object, or with an
    object that is false, the settings decide: the query set is built
    exactly when they hold a default connection with a true [URL], and it
    then gets the client they describe, made with no positional argument
    and with no keyword but the configured commit delay, if that is
    true. *)
Theorem django_queryset_client {X} (truth : X → bool) (settings : gmap string pyval)
    (solr : option X) :
  let run := DjangoSolrQuerySet.__init__ truth settings solr in
  let kept := if solr is Some x then truth x else false in
  (kept = true → ∃ x, solr = Some x ∧ run = Django.Returns (inl x)) ∧
  (kept = false →
     ∀ r, run = Django.Returns r
          ↔ ∃ conn dflt url,
              settings !! "SOLR_CONNECTIONS" = Some (PDict conn) ∧
              conn !! "default" = Some (PDict dflt) ∧
              dflt !! "URL" = Some url ∧ truthy url = true ∧
              r = inr {| Django.url := url;
                         Django.collection := default (PStr "") (dflt !! "COLLECTION");
                         Django.args := [];
                         Django.kwargs :=
                           if truthy (default PNone (dflt !! "COMMITWITHIN"))
                           then {[ "commitWithin"
                                   := default PNone (dflt !! "COMMITWITHIN") ]}
                           else ∅ |}).
Proof.
  intros run kept. subst run kept. split.
  - intros Hkept. destruct solr as [x|]; [|discriminate Hkept].
    exists x. split; [done|]. unfold DjangoSolrQuerySet.__init__. by rewrite Hkept.
  - intros Hkept r.
    assert (DjangoSolrQuerySet.__init__ truth settings solr
            = (client ← DjangoSolrClient.__init__ settings [] ∅;
               mret (inr client))) as ->.
    { unfold DjangoSolrQuerySet.__init__. destruct solr as [x|]; [|reflexivity].
      by rewrite Hkept. }
    destruct (DjangoSolrClient.__init__ settings [] ∅) as [c|e] eqn:Hinit.
    + cbn. split.
      * intros [= <-]. apply init_default in Hinit
          as (conn & dflt & url & Hs & Hd & Hu & Ht & ->).
        by exists conn, dflt, url.
      * intros (conn & dflt & url & Hs & Hd & Hu & Ht & ->). f_equal. f_equal.
        assert (Django.Returns c
                = Django.Returns
                    {| Django.url := url;
                       Django.collection := default (PStr "") (dflt !! "COLLECTION");
                       Django.args := [];
                       Django.kwargs :=
                         if truthy (default PNone (dflt !! "COMMITWITHIN"))
                         then {[ "commitWithin"
                                 := default PNone (dflt !! "COMMITWITHIN") ]}
                         else ∅ |}) as Heq; [|by injection Heq].
        rewrite <- Hinit. apply init_default. by exists conn, dflt, url.
    + cbn. split; [discriminate|].
      intros (conn & dflt & url & Hs & Hd & Hu & Ht & _).
      assert (DjangoSolrClient.__init__ settings [] ∅
              = Django.Returns
                  {| Django.url := url;
                     Django.collection := default (PStr "") (dflt !! "COLLECTION");
                     Django.args := [];
                     Django.kwargs :=
                       if truthy (default PNone (dflt !! "COMMITWITHIN"))
                       then {[ "commitWithin"
                               := default PNone (dflt !! "COMMITWITHIN") ]}
                       else ∅ |}) as Hbuilt.
      { apply init_default. by exists conn, dflt, url. }
      rewrite Hinit in Hbuilt. discriminate Hbuilt.
Qed.

Lemma django_queryset_client_witness :
  (* an object that is true, on settings that have no URL *)
  (∃ x : string, Some "client" = Some x ∧
     DjangoSolrQuerySet.__init__ (λ _ : string, true) Cases.no_url (Some "client")
     = Django.Returns (inl x)) ∧
  (* an object that is false, on good settings *)
  (∃ r, DjangoSolrQuerySet.__init__ (λ _ : string, false) Cases.settings (Some "client")
        = Django.Returns r ∧
        r = inr {| Django.url := PStr "http://localhost:8983/solr/";
                   Django.collection := PStr "mycore";
                   Django.args := [];
                   Django.kwargs := {[ "commitWithin" := PInt 1000 ]} |}).
Proof.
  split.
  - exact (proj1 (django_queryset_client (λ _ : string, true) Cases.no_url
                    (Some "client")) eq_refl).
  - eexists. split; [|reflexivity].
    apply (proj2 (django_queryset_client (λ _ : string, false) Cases.settings
                    (Some "client")) eq_refl).
    eexists _, _, _. split; [reflexivity|]. split; [reflexivity|].
    split; [reflexivity|]. split; [reflexivity|]. reflexivity.
Defined.
